(** * Ingestion pipeline: normalizer, hasher, change-detection store

    A shallow embedding of the ingestion core of the repository:
    - [ingestion/extract.py]: [_normalize], [_blocks_text], [extract_pdf_text],
      [sha256_bytes], [sha256_text];
    - [routes/database.py]: [upsert_document], [persist_chunk];
    - [routes/corpus.py]: [_get_text], the title resolvers, [add_doc].

    Python [str] values are sequences of Unicode code points; they are
    modelled as lists of integers.  SQLite tables are finite maps keyed by
    their primary key.  Exceptions are an explicit result type, and the
    database connection is threaded through a small state-and-error monad. *)

From Stdlib Require Import ZArith QArith List Bool Lia String Ascii.
From Stdlib Require Import Numbers.DecimalZ Sorting.Sorted Sorting.Permutation.
From stdpp Require Import base option list gmap.
Import ListNotations.

Local Open Scope Z_scope.

(** ** Text: Python strings as lists of code points *)

Module Text.

Abbreviation str := (list Z) (only parsing).

Definition LF : Z := 10.
Definition CR : Z := 13.
Definition FF : Z := 12.
Definition HYPHEN : Z := 45.
Definition DQUOTE : Z := 34.
Definition SQUOTE : Z := 39.
Definition SPACE : Z := 32.
Definition LDQUO : Z := 0x201C.
Definition RDQUO : Z := 0x201D.
Definition LSQUO : Z := 0x2018.
Definition RSQUO : Z := 0x2019.

(** An ASCII literal of the source, as code points. *)
Fixpoint lit (s : string) : str :=
  match s with
  | EmptyString => []
  | String a s' => Z.of_N (N_of_ascii a) :: lit s'
  end.

Fixpoint text_eqb (a b : str) : bool :=
  match a, b with
  | [], [] => true
  | x :: a', y :: b' => (x =? y) && text_eqb a' b'
  | _, _ => false
  end.

(** [sep.join(parts)] *)
Fixpoint join (sep : str) (parts : list str) : str :=
  match parts with
  | [] => []
  | [p] => p
  | p :: rest => p ++ sep ++ join sep rest
  end.

(** [s.endswith(suffix)] *)
Definition endswith (s suffix : str) : bool :=
  text_eqb (skipn (length s - length suffix) s) suffix
  && (length suffix <=? length s)%nat.

(** [str.isspace] on one character: the characters [str.strip()] removes. *)
Definition isspace (c : Z) : bool :=
  ((9 <=? c) && (c <=? 13)) || ((28 <=? c) && (c <=? 32))
  || (c =? 0x85) || (c =? 0xA0) || (c =? 0x1680)
  || ((0x2000 <=? c) && (c <=? 0x200A))
  || (c =? 0x2028) || (c =? 0x2029) || (c =? 0x202F)
  || (c =? 0x205F) || (c =? 0x3000).

Fixpoint lstrip_by (p : Z -> bool) (s : str) : str :=
  match s with
  | c :: t => if p c then lstrip_by p t else s
  | [] => []
  end.

Definition rstrip_by (p : Z -> bool) (s : str) : str :=
  rev (lstrip_by p (rev s)).

Definition strip_by (p : Z -> bool) (s : str) : str :=
  rstrip_by p (lstrip_by p s).

(** [s.strip()] *)
Definition strip (s : str) : str := strip_by isspace s.

(** [str(n)] for an [int]. *)
Fixpoint text_of_uint (d : Decimal.uint) : str :=
  match d with
  | Decimal.Nil => []
  | Decimal.D0 d => 48 :: text_of_uint d
  | Decimal.D1 d => 49 :: text_of_uint d
  | Decimal.D2 d => 50 :: text_of_uint d
  | Decimal.D3 d => 51 :: text_of_uint d
  | Decimal.D4 d => 52 :: text_of_uint d
  | Decimal.D5 d => 53 :: text_of_uint d
  | Decimal.D6 d => 54 :: text_of_uint d
  | Decimal.D7 d => 55 :: text_of_uint d
  | Decimal.D8 d => 56 :: text_of_uint d
  | Decimal.D9 d => 57 :: text_of_uint d
  end.

Definition str_of_int (n : Z) : str :=
  match Z.to_int n with
  | Decimal.Pos d => text_of_uint d
  | Decimal.Neg d => HYPHEN :: text_of_uint d
  end.

End Text.
Import Text.

(** ** Hasher: [sha256_bytes], [sha256_text] *)

Module Hasher.

(** [text.encode('utf-8')].  Python refuses lone surrogates
    (UnicodeEncodeError); a [str] holds no code point past U+10FFFF. *)
Definition utf8_char (c : Z) : option (list Z) :=
  if c <? 0 then None
  else if c <? 0x80 then Some [c]
  else if c <? 0x800 then
    Some [Z.lor 0xC0 (Z.shiftr c 6); Z.lor 0x80 (Z.land c 0x3F)]
  else if c <? 0x10000 then
    if (0xD800 <=? c) && (c <=? 0xDFFF) then None
    else Some [Z.lor 0xE0 (Z.shiftr c 12);
               Z.lor 0x80 (Z.land (Z.shiftr c 6) 0x3F);
               Z.lor 0x80 (Z.land c 0x3F)]
  else if c <? 0x110000 then
    Some [Z.lor 0xF0 (Z.shiftr c 18);
          Z.lor 0x80 (Z.land (Z.shiftr c 12) 0x3F);
          Z.lor 0x80 (Z.land (Z.shiftr c 6) 0x3F);
          Z.lor 0x80 (Z.land c 0x3F)]
  else None.

Fixpoint utf8_encode (s : str) : option (list Z) :=
  match s with
  | [] => Some []
  | c :: t =>
    match utf8_char c, utf8_encode t with
    | Some bs, Some rest => Some (bs ++ rest)
    | _, _ => None
    end
  end.

(** Whether a [str] can be encoded; binding it to an SQLite statement
    encodes it too. *)
Definition encodable (s : str) : bool :=
  match utf8_encode s with
  | Some _ => true
  | None => false
  end.

(** SHA-256 (FIPS 180-4) on 32-bit words held in [Z]. *)
Definition w32 (x : Z) : Z := x mod 0x100000000.
Definition add32 (x y : Z) : Z := w32 (x + y).
Definition rotr (n x : Z) : Z :=
  Z.lor (Z.shiftr x n) (w32 (Z.shiftl x (32 - n))).
Definition not32 (x : Z) : Z := 0xFFFFFFFF - x.

Definition Ch (x y z : Z) : Z := Z.lxor (Z.land x y) (Z.land (not32 x) z).
Definition Maj (x y z : Z) : Z :=
  Z.lxor (Z.lxor (Z.land x y) (Z.land x z)) (Z.land y z).
Definition Sigma0 (x : Z) : Z :=
  Z.lxor (Z.lxor (rotr 2 x) (rotr 13 x)) (rotr 22 x).
Definition Sigma1 (x : Z) : Z :=
  Z.lxor (Z.lxor (rotr 6 x) (rotr 11 x)) (rotr 25 x).
Definition sigma0 (x : Z) : Z :=
  Z.lxor (Z.lxor (rotr 7 x) (rotr 18 x)) (Z.shiftr x 3).
Definition sigma1 (x : Z) : Z :=
  Z.lxor (Z.lxor (rotr 17 x) (rotr 19 x)) (Z.shiftr x 10).

(** The constants of FIPS 180-4, by their definition: the first 32 bits of
    the fractional parts of the cube roots of the first sixty-four primes
    (round constants) and of the square roots of the first eight (initial
    hash value). *)
Definition is_prime (n : nat) : bool :=
  forallb (fun d => negb (n mod d =? 0)%nat) (seq 2 (n - 2)).

Definition first_primes (k : nat) : list Z :=
  map Z.of_nat (firstn k (List.filter is_prime (seq 2 400))).

(** The largest [r] below [2 ^ bits] with [r * r * r <= n], bit by bit. *)
Fixpoint cube_root (bits : nat) (n r : Z) : Z :=
  match bits with
  | O => r
  | S b =>
    let r' := r + 2 ^ Z.of_nat b in
    if r' * r' * r' <=? n then cube_root b n r' else cube_root b n r
  end.

Definition frac32_cbrt (p : Z) : Z := cube_root 40 (p * 2 ^ 96) 0 mod 2 ^ 32.
Definition frac32_sqrt (p : Z) : Z := Z.sqrt (p * 2 ^ 64) mod 2 ^ 32.

Definition K256 : list Z :=
  Eval vm_compute in map frac32_cbrt (first_primes 64).

(** The eight working variables, and the chaining value. *)
Record state8 := St8 { sa : Z; sb : Z; sc : Z; sd : Z;
                       se : Z; sf : Z; sg : Z; sh : Z }.

Definition H0 : state8 :=
  Eval vm_compute in
    match map frac32_sqrt (first_primes 8) with
    | [a; b; c; d; e; f; g; h] => St8 a b c d e f g h
    | _ => St8 0 0 0 0 0 0 0 0
    end.

(** Padding: 0x80, zeros up to 56 mod 64, then the bit length on 8 bytes. *)
Definition be_bytes (n : nat) (x : Z) : list Z :=
  map (fun i => Z.land (Z.shiftr x (8 * Z.of_nat i)) 0xFF) (rev (seq 0 n)).

Definition pad (msg : list Z) : list Z :=
  let len := Z.of_nat (length msg) in
  let zeros := Z.to_nat ((55 - len) mod 64) in
  msg ++ [0x80] ++ repeat 0 zeros ++ be_bytes 8 (8 * len).

(** Big-endian words of a byte string (trailing bytes short of a word are
    dropped; a padded message has none). *)
Fixpoint words_of (bs : list Z) : list Z :=
  match bs with
  | b0 :: b1 :: b2 :: b3 :: rest =>
    (Z.shiftl b0 24 + Z.shiftl b1 16 + Z.shiftl b2 8 + b3) :: words_of rest
  | _ => []
  end.

(** Message schedule: [win] holds the last sixteen words, newest first. *)
Fixpoint schedule (n : nat) (win : list Z) : list Z :=
  match n with
  | O => []
  | S n' =>
    let w := add32 (add32 (sigma1 (nth 1 win 0)) (nth 6 win 0))
                   (add32 (sigma0 (nth 14 win 0)) (nth 15 win 0)) in
    w :: schedule n' (w :: firstn 15 win)
  end.

Definition round (s : state8) (kw : Z * Z) : state8 :=
  let '(k, w) := kw in
  let t1 := add32 (add32 (add32 (sh s) (Sigma1 (se s)))
                         (add32 (Ch (se s) (sf s) (sg s)) k)) w in
  let t2 := add32 (Sigma0 (sa s)) (Maj (sa s) (sb s) (sc s)) in
  St8 (add32 t1 t2) (sa s) (sb s) (sc s) (add32 (sd s) t1) (se s) (sf s) (sg s).

Definition compress (h : state8) (block : list Z) : state8 :=
  let w := block ++ schedule 48 (rev block) in
  let s := fold_left round (combine K256 w) h in
  St8 (add32 (sa h) (sa s)) (add32 (sb h) (sb s))
      (add32 (sc h) (sc s)) (add32 (sd h) (sd s))
      (add32 (se h) (se s)) (add32 (sf h) (sf s))
      (add32 (sg h) (sg s)) (add32 (sh h) (sh s)).

Fixpoint blocks (n : nat) (ws : list Z) (h : state8) : state8 :=
  match n with
  | O => h
  | S n' =>
    match ws with
    | [] => h
    | _ => blocks n' (skipn 16 ws) (compress h (firstn 16 ws))
    end
  end.

Definition sha256_words (msg : list Z) : state8 :=
  let ws := words_of (pad msg) in
  blocks (length ws) ws H0.

(** [hexdigest()]: lower-case hexadecimal, eight digits per word. *)
Definition hex_digit (d : Z) : Z :=
  if d <? 10 then 48 + d else 87 + d.

Definition hex_word (x : Z) : str :=
  map (fun i => hex_digit (Z.land (Z.shiftr x (4 * Z.of_nat i)) 0xF))
      (rev (seq 0 8)).

Definition hexdigest (s : state8) : str :=
  hex_word (sa s) ++ hex_word (sb s) ++ hex_word (sc s) ++ hex_word (sd s)
  ++ hex_word (se s) ++ hex_word (sf s) ++ hex_word (sg s) ++ hex_word (sh s).

(** [sha256_bytes(bytes)] *)
Definition sha256_bytes (bs : list Z) : str := hexdigest (sha256_words bs).

(** [sha256_text(text)]: [None] stands for the UnicodeEncodeError of
    [text.encode('utf-8')]. *)
Definition sha256_text (t : str) : option str :=
  sha256_bytes <$> utf8_encode t.

End Hasher.
Import Hasher.

(** ** Text Normalizer: [_normalize] *)

Module Normalizer.

(** Leading newlines of a string, and whether it holds three in a row. *)
Fixpoint lead_nl (s : str) : nat :=
  match s with
  | c :: t => if c =? LF then S (lead_nl t) else O
  | [] => O
  end.

Fixpoint has_run3 (s : str) : bool :=
  match s with
  | c :: t => ((c =? LF) && (2 <=? lead_nl t)%nat) || has_run3 t
  | [] => false
  end.

(** [s.replace(CRLF, LF)]: left to right, occurrences do not overlap. *)
Fixpoint replace_crlf (s : str) : str :=
  match s with
  | c :: t =>
    match t with
    | d :: t' =>
      if (c =? CR) && (d =? LF) then LF :: replace_crlf t'
      else c :: replace_crlf t
    | [] => [c]
    end
  | [] => []
  end.

(** [s.replace(CR, LF)] *)
Definition replace_cr (s : str) : str :=
  map (fun c => if c =? CR then LF else c) s.

(** [re.sub] of the class of U+201C and U+201D by the straight double
    quote, and of the class of U+2018 and U+2019 by the straight single
    quote. *)
Definition sub_dquotes (s : str) : str :=
  map (fun c => if (c =? LDQUO) || (c =? RDQUO) then DQUOTE else c) s.

Definition sub_squotes (s : str) : str :=
  map (fun c => if (c =? LSQUO) || (c =? RSQUO) then SQUOTE else c) s.

(** [re.sub] of the pattern [\n{3,}] by two newlines.  The scan goes left to right; where
    three newlines start, the greedy match takes the whole run and two
    newlines are written.  [skip] is set while the scan is inside a match. *)
Fixpoint sub_nl3 (skip : bool) (s : str) : str :=
  match s with
  | c :: t =>
    if skip && (c =? LF) then sub_nl3 true t
    else if (c =? LF) && (2 <=? lead_nl t)%nat then LF :: LF :: sub_nl3 true t
    else c :: sub_nl3 false t
  | [] => []
  end.

Section WithUnicode.

(** Python's [\w] on a [str] pattern is [ch.isalnum() or ch == '_'].  On
    ASCII that is [A-Za-z0-9_]; past ASCII it is read from the Unicode
    character database, which the repository does not carry: the table
    is a parameter. *)
Variable uni_alnum : Z -> bool.

Definition is_word (c : Z) : bool :=
  if c <? 128 then
    ((48 <=? c) && (c <=? 57)) || ((65 <=? c) && (c <=? 90))
    || ((97 <=? c) && (c <=? 122)) || (c =? 95)
  else uni_alnum c.

(** [re.sub] of the pattern [(\w)-\n(\w)] by [\1\2]: at a match the four characters
    are consumed and the scan resumes after the second word character. *)
Fixpoint sub_dehyphen (s : str) : str :=
  match s with
  | a :: t =>
    match t with
    | h :: n :: b :: rest =>
      if is_word a && (h =? HYPHEN) && (n =? LF) && is_word b
      then a :: b :: sub_dehyphen rest
      else a :: sub_dehyphen t
    | _ => a :: sub_dehyphen t
    end
  | [] => []
  end.

Definition _normalize (s : str) : str :=
  let s := replace_cr (replace_crlf s) in
  let s := sub_dquotes s in
  let s := sub_squotes s in
  let s := sub_dehyphen s in
  let s := sub_nl3 false s in
  s.

(** An occurrence of [<word-char>-<newline><word-char>] in a string. *)
Fixpoint has_soft_wrap (s : str) : bool :=
  match s with
  | a :: t =>
    match t with
    | h :: n :: b :: _ =>
      (is_word a && (h =? HYPHEN) && (n =? LF) && is_word b) || has_soft_wrap t
    | _ => false
    end
  | [] => false
  end.

End WithUnicode.

End Normalizer.
Import Normalizer.

(** ** Change-Detection Store: [routes/database.py] *)

Module Store.

(** Exceptions the modelled calls can raise. *)
Inductive exn :=
| UnicodeEncodeError   (* str.encode on a lone surrogate *)
| OverflowError        (* an int outside SQLite's 64-bit INTEGER *)
| DatabaseError        (* sqlite3 rejects or fails a statement or a commit *)
| ExternalError.       (* a failure of a collaborator: file, parser, network *)

Inductive result (A : Type) :=
| Ok (a : A)
| Raise (e : exn).
Arguments Ok {A} a.
Arguments Raise {A} e.

(** A row of [documents], keyed by [doc_id]. *)
Record DocRow := {
  source_path : str;
  title : option str;
  file_hash : str;
  modified_at : Z
}.

(** A row of [chunks], keyed by [chunk_id]. *)
Record ChunkRow := {
  chunk_doc_id : str;
  page_start : option Z;
  page_end : option Z;
  section : option str;
  chunk_hash : str;
  content_hash : str;
  chunk_text : str
}.

Record Tables := {
  documents : gmap (list Z) DocRow;
  chunks : gmap (list Z) ChunkRow
}.

(** A connection: [durable] is the committed database, what any other
    reader sees; [working] is what this connection sees, its uncommitted
    writes included.  [faults] is the outcome of the coming calls into
    sqlite3, one entry per call, [true] for a call that raises; past its
    end every call succeeds. *)
Record Conn := {
  durable : Tables;
  working : Tables;
  faults : list bool
}.

Definition M (A : Type) : Type := Conn -> result A * Conn.

Definition ret {A} (a : A) : M A := fun c => (Ok a, c).
Definition raise {A} (e : exn) : M A := fun c => (Raise e, c).
Definition bind {A B} (m : M A) (k : A -> M B) : M B :=
  fun c =>
    match m c with
    | (Ok a, c') => k a c'
    | (Raise e, c') => (Raise e, c')
    end.

Declare Scope db_scope.
Delimit Scope db_scope with db.
Notation "x <- m ;; k" := (bind m (fun x => k))
  (at level 100, m at next level, right associativity) : db_scope.
Notation "m ;; k" := (bind m (fun _ => k))
  (at level 100, right associativity) : db_scope.
Local Open Scope db_scope.

(** Entering sqlite3: the next entry of [faults] decides. *)
Definition sqlite_call : M unit :=
  fun c =>
    match faults c with
    | [] => (Ok tt, c)
    | b :: fs =>
      let c' := {| durable := durable c; working := working c; faults := fs |} in
      if b then (Raise DatabaseError, c') else (Ok tt, c')
    end.

Definition write (f : Tables -> Tables) : M unit :=
  fun c => (Ok tt, {| durable := durable c; working := f (working c);
                      faults := faults c |}).

(** [db.commit()] *)
Definition commit : M unit :=
  sqlite_call ;;
  fun c => (Ok tt, {| durable := working c; working := working c;
                      faults := faults c |}).

(** Python ints bound to a statement must fit SQLite's INTEGER. *)
Definition in_int64 (n : Z) : bool :=
  (- 2 ^ 63 <=? n) && (n <? 2 ^ 63).

Definition bind_int (n : Z) : M Z :=
  if in_int64 n then ret n else raise OverflowError.

(** A [str] bound to a statement is encoded as UTF-8. *)
Definition bind_text (t : str) : M unit :=
  if encodable t then ret tt else raise UnicodeEncodeError.

Definition bind_opt_text (t : option str) : M unit :=
  match t with
  | Some t => bind_text t
  | None => ret tt
  end.

(** [SELECT file_hash FROM documents WHERE doc_id=?] and [fetchone()] *)
Definition select_file_hash (doc_id : str) : M (option str) :=
  bind_text doc_id ;;
  sqlite_call ;;
  fun c => (Ok (file_hash <$> documents (working c) !! doc_id), c).

(** [REPLACE INTO documents(doc_id, source_path, file_hash, modified_at)]:
    a row with this primary key is deleted and the new row inserted; the
    column the statement leaves out, [title], takes its default, NULL. *)
Definition replace_into_documents
           (doc_id source_path file_hash : str) (modified_at : Z) : M unit :=
  bind_text doc_id ;;
  bind_text source_path ;;
  bind_text file_hash ;;
  n <- bind_int modified_at ;;
  sqlite_call ;;
  write (fun t =>
    {| documents := <[doc_id := {| source_path := source_path;
                                   title := None;
                                   file_hash := file_hash;
                                   modified_at := n |}]> (documents t);
       chunks := chunks t |}).

(** [REPLACE INTO chunks(...)]: rows in conflict with the new one, on the
    primary key [chunk_id] or on the unique index over
    [(doc_id, chunk_hash)], are deleted, and the new row inserted. *)
Definition same_doc_hash (r r' : ChunkRow) : bool :=
  text_eqb (chunk_doc_id r) (chunk_doc_id r')
  && text_eqb (chunk_hash r) (chunk_hash r').

Definition bind_opt_int (n : option Z) : M (option Z) :=
  match n with
  | Some n => n' <- bind_int n ;; ret (Some n')
  | None => ret None
  end.

Definition replace_into_chunks (chunk_id : str) (r : ChunkRow) : M unit :=
  bind_text chunk_id ;;
  bind_text (chunk_doc_id r) ;;
  ps <- bind_opt_int (page_start r) ;;
  pe <- bind_opt_int (page_end r) ;;
  bind_opt_text (section r) ;;
  bind_text (chunk_hash r) ;;
  bind_text (content_hash r) ;;
  bind_text (chunk_text r) ;;
  sqlite_call ;;
  write (fun t =>
    {| documents := documents t;
       chunks := <[chunk_id := r]>
                   (filter (fun kr => negb (same_doc_hash (snd kr) r))
                           (chunks t)) |}).

(** [int(mtime)]: truncation toward zero; a finite float is a rational. *)
Definition int_of_number (x : Q) : Z := Z.quot (Qnum x) (Z.pos (Qden x)).

(** [sha256_text] inside the monad. *)
Definition sha256_text_m (t : str) : M str :=
  match sha256_text t with
  | Some h => ret h
  | None => raise UnicodeEncodeError
  end.

(** The module globals [TOK_VER] and [SEG_VER], read at each call. *)
Record versions := { TOK_VER : Z; SEG_VER : Z }.
Definition source_versions : versions := {| TOK_VER := 1; SEG_VER := 1 |}.

Definition upsert_document
           (doc_id source_path norm_text : str) (mtime : Q) : M bool :=
  file_hash <- sha256_text_m norm_text ;;
  row <- select_file_hash doc_id ;;
  if match row with
     | Some h => text_eqb h file_hash
     | None => false
     end
  then ret false
  else
    replace_into_documents doc_id source_path file_hash (int_of_number mtime) ;;
    commit ;;
    ret true.

Definition persist_chunk (v : versions) (doc_id text : str)
           (page_s page_e : option Z) (section : option str)
  : M (str * str) :=
  chunk_hash <- sha256_text_m text ;;
  content_hash <- sha256_text_m
    (text ++ lit "|tok=" ++ str_of_int (TOK_VER v)
          ++ lit "|seg=" ++ str_of_int (SEG_VER v)) ;;
  let chunk_id := doc_id ++ lit ":" ++ firstn 12 chunk_hash in
  replace_into_chunks chunk_id
    {| chunk_doc_id := doc_id; page_start := page_s; page_end := page_e;
       section := section; chunk_hash := chunk_hash;
       content_hash := content_hash; chunk_text := text |} ;;
  commit ;;
  ret (chunk_id, content_hash).

(** The composition §4.5 of the specification speaks of: one document's
    ingestion is [upsert_document] and then, when it reports a change,
    [persist_chunk] for each chunk in order.  ([add_doc] stops after
    [upsert_document].) *)
Record chunk_input := {
  ci_text : str;
  ci_page_s : option Z;
  ci_page_e : option Z;
  ci_section : option str
}.

Fixpoint persist_chunks (v : versions) (doc_id : str)
         (cs : list chunk_input) : M (list (str * str)) :=
  match cs with
  | [] => ret []
  | c :: cs' =>
    r <- persist_chunk v doc_id (ci_text c) (ci_page_s c) (ci_page_e c)
                       (ci_section c) ;;
    rs <- persist_chunks v doc_id cs' ;;
    ret (r :: rs)
  end.

Definition ingest_document (v : versions)
           (doc_id source_path norm_text : str) (mtime : Q)
           (cs : list chunk_input) : M bool :=
  changed <- upsert_document doc_id source_path norm_text mtime ;;
  if changed then persist_chunks v doc_id cs ;; ret true else ret false.

End Store.
Import Store.

(** ** Extractor: [_blocks_text], [_ocr_page], [extract_pdf_text],
       [extract_docx_text] *)

Module Extractor.

(** A text block of a page as [extractBLOCKS] returns it: the tuple's
    [b[0]] (left edge), [b[1]] (top edge) and [b[4]] (text).  Coordinates
    are finite floats, that is, rationals. *)
Record Block := {
  b0 : Q;
  b1 : Q;
  b4 : option str
}.

(** A page: its text blocks, and what the recognizer reads from its
    raster at a zoom factor.  The recognizer (pytesseract over a fitz
    pixmap) is a collaborator; its answer is part of the input. *)
Record Page := {
  extractBLOCKS : list Block;
  recognize : Q -> str
}.

(** [round(x, 2)]: the exact value rounded to two decimals, ties to even,
    given in hundredths. *)
Definition round2 (x : Q) : Z :=
  let n := 100 * Qnum x in
  let d := Z.pos (Qden x) in
  let fl := n / d in
  let r := n mod d in
  match 2 * r ?= d with
  | Lt => fl
  | Gt => fl + 1
  | Eq => if Z.even fl then fl else fl + 1
  end.

(** The sort key [(round(b[1], 2), round(b[0], 2))] and the order of
    Python tuples. *)
Definition sort_key (b : Block) : Z * Z := (round2 (b1 b), round2 (b0 b)).

Definition key_leb (k k' : Z * Z) : bool :=
  (fst k <? fst k') || ((fst k =? fst k') && (snd k <=? snd k')).

(** [list.sort(key=...)] is stable: equal keys keep their order. *)
Fixpoint insert_block (b : Block) (l : list Block) : list Block :=
  match l with
  | [] => [b]
  | b' :: l' =>
    if key_leb (sort_key b) (sort_key b') then b :: l
    else b' :: insert_block b l'
  end.

Fixpoint sort_blocks (l : list Block) : list Block :=
  match l with
  | [] => []
  | b :: l' => insert_block b (sort_blocks l')
  end.

Definition or_empty (t : option str) : str :=
  match t with
  | Some s => s
  | None => []
  end.

Definition nonempty (s : str) : bool :=
  match s with
  | [] => false
  | _ => true
  end.

Definition _blocks_text (tp : Page) : str :=
  let blocks := sort_blocks (extractBLOCKS tp) in
  let parts :=
    map (fun b => strip (or_empty (b4 b)))
        (List.filter (fun b => nonempty (strip (or_empty (b4 b)))) blocks) in
  join [LF; LF] parts.

(** [_ocr_page(page, zoom)] *)
Definition _ocr_page (page : Page) (zoom : Q) : str := recognize page zoom.

Definition default_zoom : Q := 2.

Definition page_separator : str := [LF; LF; FF; LF; LF].

(** The loop of [extract_pdf_text]: the state is [out_parts] and, as an
    observation of the run, the pages (by index) handed to [_ocr_page]
    with the zoom used. *)
Definition page_step (st : list str * list (nat * Q)) (ip : nat * Page)
  : list str * list (nat * Q) :=
  let '(out_parts, ocr_log) := st in
  let '(i, page) := ip in
  let txt := strip (_blocks_text page) in
  if nonempty txt then (out_parts ++ [txt], ocr_log)
  else (out_parts ++ [strip (_ocr_page page default_zoom)],
        ocr_log ++ [(i, default_zoom)]).

Definition enumerate {A} (l : list A) : list (nat * A) :=
  combine (seq 0 (length l)) l.

Section WithUnicode.
Variable uni_alnum : Z -> bool.

Definition extract_pdf_text (doc : list Page) : str * list (nat * Q) :=
  let '(out_parts, ocr_log) := fold_left page_step (enumerate doc) ([], []) in
  let raw := strip (join page_separator out_parts) in
  (_normalize uni_alnum raw, ocr_log).

(** [doc.paragraphs] is given by the texts of the paragraphs. *)
Definition extract_docx_text (paragraphs : list str) : str :=
  _normalize uni_alnum (join [LF] paragraphs).

End WithUnicode.

End Extractor.
Import Extractor.

(** ** Routes: [routes/corpus.py] *)

Module Corpus.

Definition Unknown : str := lit "Unknown".
Definition Untitled : str := lit "Untitled".

(** The result monad of code that only raises or returns. *)
Definition rbind {A B} (m : result A) (k : A -> result B) : result B :=
  match m with
  | Ok a => k a
  | Raise e => Raise e
  end.

(** [try: body / except Exception: handler] *)
Definition try_except {A} (body handler : result A) : result A :=
  match body with
  | Ok a => Ok a
  | Raise _ => handler
  end.

(** [str.splitlines()] *)
Definition is_linebreak (c : Z) : bool :=
  ((10 <=? c) && (c <=? 13)) || ((0x1C <=? c) && (c <=? 0x1E))
  || (c =? 0x85) || (c =? 0x2028) || (c =? 0x2029).

Fixpoint splitlines_from (cur : str) (s : str) : list str :=
  match s with
  | [] => match cur with [] => [] | _ => [rev cur] end
  | c :: t =>
    if is_linebreak c then
      rev cur ::
      match t with
      | d :: t' => if (c =? CR) && (d =? LF) then splitlines_from [] t'
                   else splitlines_from [] t
      | [] => splitlines_from [] t
      end
    else splitlines_from (c :: cur) t
  end.

Definition splitlines (s : str) : list str := splitlines_from [] s.

(** [next((ln.strip() for ln in lines if ln.strip()), default)] with the
    empty string as default *)
Fixpoint first_nonblank (lines : list str) : str :=
  match lines with
  | [] => []
  | ln :: rest => if nonempty (strip ln) then strip ln else first_nonblank rest
  end.

(** The characters of [title_line.strip(...)]: both quotes and the space. *)
Definition quote_or_space (c : Z) : bool :=
  (c =? DQUOTE) || (c =? SQUOTE) || (c =? SPACE).

Section WithUnicode.

(** [str.lower()] maps A-Z to a-z and leaves the rest of ASCII alone;
    past ASCII it follows the Unicode character database, which the
    repository does not carry: the mapping is a parameter (a character
    may lower to several). *)
Variable uni_lower : Z -> list Z.
Variable uni_alnum : Z -> bool.

Definition lower_char (c : Z) : list Z :=
  if c <? 128 then
    if (65 <=? c) && (c <=? 90) then [c + 32] else [c]
  else uni_lower c.

Definition lower (s : str) : str := flat_map lower_char s.

(** What the model's answer looks like to the caller: [resp.choices] is
    empty, or the first choice carries [message.content] (or None). *)
Inductive completion :=
| NoChoices
| Message (content : option str).

(** The collaborators of title resolution. *)
Record TitleEnv := {
  api_key : option str;                  (* config or environment *)
  OpenAI : result unit;                  (* constructing the client *)
  chat_create : str -> result completion (* the completion call, by prompt *)
}.

Definition has_key (env : TitleEnv) : bool :=
  match api_key env with
  | Some k => nonempty k
  | None => false
  end.

(** The tail of both resolvers (lines 103-111 and 159-167): from the
    response to the title or the sentinel. *)
Definition response_title (resp : completion) : str :=
  let content := match resp with
                 | NoChoices => Some []
                 | Message c => c
                 end in
  let candidate := strip (or_empty content) in
  if negb (nonempty candidate) then Unknown
  else
    let title_line := first_nonblank (splitlines candidate) in
    let title_line := strip_by quote_or_space title_line in
    if negb (nonempty title_line)
       || text_eqb (lower title_line) (lit "unknown")
       || (200 <? length title_line)%nat
    then Unknown
    else title_line.

Definition docx_prompt (snippet : str) : str :=
  lit "Extract the document's title from the following first page text of a Word (DOCX) document."
  ++ [LF]
  ++ lit "Return ONLY the title (no quotes, no extra words). If you cannot confidently identify a distinct title, respond exactly with: Unknown"
  ++ [LF; LF] ++ lit "--- PAGE TEXT START ---" ++ [LF]
  ++ snippet ++ [LF] ++ lit "--- PAGE TEXT END ---".

Definition pdf_prompt (snippet : str) : str :=
  lit "Extract the document's title from the following first PDF page text."
  ++ [LF]
  ++ lit "Return ONLY the title (no quotes, no extra words). If you cannot confidently identify a distinct title, respond exactly with: Unknown"
  ++ [LF; LF] ++ lit "--- PAGE TEXT START ---" ++ [LF]
  ++ snippet ++ [LF] ++ lit "--- PAGE TEXT END ---".

(** A paragraph of a DOCX file: its text and whether one of its runs
    carries a page break. *)
Record Paragraph := {
  para_text : option str;
  para_page_break : bool
}.

Definition char_limit : nat := Z.to_nat 8000.

(** The paragraph loop of [_extract_docx_title]. *)
Fixpoint gather (paras : list Paragraph) (snippets : list str) (total : nat)
  : list str :=
  match paras with
  | [] => snippets
  | para :: rest =>
    let txt := strip (or_empty (para_text para)) in
    let snippets' := if nonempty txt then snippets ++ [txt] else snippets in
    let total' := if nonempty txt then (total + length txt)%nat else total in
    if para_page_break para || (char_limit <=? total')%nat then snippets'
    else gather rest snippets' total'
  end.

(** [_extract_docx_title]: [doc] is the outcome of [Document(file_path)]
    (a document object is always truthy).  The whole body sits in
    [try ... except Exception]. *)
Definition _extract_docx_title (env : TitleEnv)
           (doc : result (list Paragraph)) : result str :=
  try_except
    (rbind doc (fun paras =>
     let snippets := gather paras [] 0 in
     match snippets with
     | [] => Ok Unknown
     | _ =>
       let snippet := strip (firstn char_limit (join [LF] snippets)) in
       if negb (nonempty snippet) then Ok Unknown
       else if negb (has_key env) then Ok Unknown
       else
         rbind (OpenAI env) (fun _ =>
         try_except
           (rbind (chat_create env (docx_prompt snippet)) (fun resp =>
            Ok (response_title resp)))
           (Ok Unknown))
     end))
    (Ok Unknown).

(** An uploaded PDF as [_extract_pdf_title] reads it: [file.stream.tell()],
    [file.read()], and [fitz.open(stream=data)] with the [get_text()] of
    each page. *)
Record PdfFile := {
  stream_tell : result Z;
  file_read : result (list Z);
  fitz_open_stream : result (list (option str))
}.

(** [_extract_pdf_title]: the body sits in [try ... finally] (the
    stream position is restored; nothing is caught); only the
    completion call has an [except]. *)
Definition _extract_pdf_title (env : TitleEnv) (file : PdfFile)
  : result str :=
  rbind (stream_tell file) (fun pos =>
  rbind (file_read file) (fun data =>
  match data with
  | [] => Ok Unknown
  | _ =>
    rbind (fitz_open_stream file) (fun pdf =>
    match pdf with
    | [] => Ok Unknown
    | page :: _ =>
      let text := strip (or_empty page) in
      if negb (nonempty text) then Ok Unknown
      else
        let snippet := firstn char_limit text in
        if negb (has_key env) then Ok Unknown
        else
          rbind (OpenAI env) (fun _ =>
          try_except
            (rbind (chat_create env (pdf_prompt snippet)) (fun resp =>
             Ok (response_title resp)))
            (Ok Unknown))
    end)
  end)).

(** [allowed_file] *)
Fixpoint after_last_dot (s : str) : option str :=
  match s with
  | [] => None
  | c :: t =>
    match after_last_dot t with
    | Some r => Some r
    | None => if c =? 46 then Some t else None
    end
  end.

Definition ALLOWED_EXTENSIONS : list str :=
  [lit "pdf"; lit "doc"; lit "docx"].

Definition allowed_file (filename : str) : bool :=
  match after_last_dot filename with
  | Some ext => existsb (text_eqb (lower ext)) ALLOWED_EXTENSIONS
  | None => false
  end.

(** The repository's functions, as entries of a call log. *)
Inductive fn :=
| F_allowed_file | F_get_text | F_get_title
| F_extract_pdf_text | F_extract_docx_text
| F_extract_pdf_title | F_extract_docx_title
| F_upsert_document | F_persist_chunk.

(** What [add_doc] finds around it. *)
Record World := {
  getenv_UPLOAD_FOLDER : option str;
  root_path_uploads : str;       (* os.path.join(root_path, 'uploads') *)
  makedirs : result unit;
  uuid4 : str;                   (* str(uuid.uuid4()) *)
  now_timestamp : Z;             (* int(datetime.now(utc).timestamp()) *)
  fitz_open : str -> result (list Page);
  Document : str -> result (list str)   (* paragraph texts *)
}.

(** The uploaded file: its name and the outcome of [file.save]. *)
Record Upload := {
  filename : option str;
  save : str -> result unit
}.

Record Response := {
  status : Z;
  message : str
}.

(** [os.path.join] on POSIX. *)
Definition path_join (a b : str) : str :=
  match b with
  | 47 :: _ => b
  | _ =>
    match a with
    | [] => b
    | _ => if endswith a [47] then a ++ b else a ++ [47] ++ b
    end
  end.

(** [_get_text]: the text and the functions it entered. *)
Definition _get_text (w : World) (file_path : str) : result str * list fn :=
  if endswith file_path (lit ".pdf") then
    (rbind (fitz_open w file_path) (fun doc =>
       Ok (fst (extract_pdf_text uni_alnum doc))),
     [F_get_text; F_extract_pdf_text])
  else if endswith file_path (lit ".doc") || endswith file_path (lit ".docx") then
    (rbind (Document w file_path) (fun paras =>
       Ok (extract_docx_text uni_alnum paras)),
     [F_get_text; F_extract_docx_text])
  else (Ok Untitled, [F_get_text]).

(** [add_doc]: [file] is [request.files.get('file')], [db] the
    connection of [get_db()].  The result is the response (or the
    exception that escapes the view), the connection afterwards, and the
    repository functions entered, in order. *)
Definition add_doc (w : World) (file : option Upload) (db : Conn)
  : result Response * Conn * list fn :=
  match file with
  | None => (Ok {| status := 400; message := lit "No file part" |}, db, [])
  | Some file =>
    match filename file with
    | None | Some [] =>
      (Ok {| status := 400; message := lit "No selected file" |}, db, [])
    | Some filename_value =>
      if negb (allowed_file filename_value) then
        (Ok {| status := 400;
               message := lit "Unsupported file type. Allowed: PDF, DOC, DOCX" |},
         db, [F_allowed_file])
      else
        let upload_folder :=
          match getenv_UPLOAD_FOLDER w with
          | Some (c :: f) => c :: f
          | _ => root_path_uploads w
          end in
        match makedirs w with
        | Raise e => (Raise e, db, [F_allowed_file])
        | Ok _ =>
          let doc_id := uuid4 w in
          let mtime_epoch := now_timestamp w in
          let file_path := path_join upload_folder doc_id in
          match save file file_path with
          | Raise _ =>
            (Ok {| status := 500; message := lit "Failed to save file" |},
             db, [F_allowed_file])
          | Ok _ =>
            let '(text, entered) := _get_text w file_path in
            match text with
            | Raise e => (Raise e, db, F_allowed_file :: entered)
            | Ok text =>
              let '(r, db') :=
                upsert_document doc_id file_path text (inject_Z mtime_epoch) db in
              let log := F_allowed_file :: entered ++ [F_upsert_document] in
              match r with
              | Raise e => (Raise e, db', log)
              | Ok _ =>
                (Ok {| status := 201;
                       message := lit "Document uploaded successfully." |},
                 db', log)
              end
            end
          end
        end
    end
  end.

End WithUnicode.

End Corpus.
Import Corpus.

(** * Notions used to state the properties *)

(** A connection on which no call into sqlite3 fails. *)
Definition reliable (c : Conn) : Prop := faults c = [].

(** The [file_hash] this connection reads for a document. *)
Definition stored_hash (c : Conn) (doc_id : str) : option str :=
  file_hash <$> documents (working c) !! doc_id.

(** The value of a hexadecimal digit, and a digest read as a number, lowest
    digit first: a digest of sixty-four digits is a number below 16^64. *)
Definition hex_value (c : Z) : Z := if c <=? 57 then c - 48 else c - 87.

Fixpoint hex_number (s : str) : Z :=
  match s with
  | [] => 0
  | c :: t => hex_value c + 16 * hex_number t
  end.

(** The state [upsert_document] leaves after its REPLACE and commit. *)
Definition with_document (c : Conn) (doc_id : str) (row : DocRow) : Conn :=
  let t := {| documents := <[doc_id := row]> (documents (working c));
              chunks := chunks (working c) |} in
  {| durable := t; working := t; faults := [] |}.

(** Sample inputs. *)
Definition no_tables : Tables := {| documents := ∅; chunks := ∅ |}.

Definition fresh_conn : Conn :=
  {| durable := no_tables; working := no_tables; faults := [] |}.

Definition sample_doc_id : str := lit "3f2b8c1e".
Definition sample_path : str := lit "/srv/uploads/3f2b8c1e".

(** The text the versioned content hash is taken of. *)
Definition versioned_text (v : versions) (text : str) : str :=
  text ++ lit "|tok=" ++ str_of_int (TOK_VER v)
       ++ lit "|seg=" ++ str_of_int (SEG_VER v).

(** The chunk identifier of a text in a document. *)
Definition chunk_id_of (doc_id : str) (digest : str) : str :=
  doc_id ++ lit ":" ++ firstn 12 digest.

(** Optional page numbers that SQLite can store. *)
Definition bindable (n : option Z) : Prop :=
  match n with
  | Some n => in_int64 n = true
  | None => True
  end.

(** Optional text that SQLite can store. *)
Definition bindable_text (t : option str) : Prop :=
  match t with
  | Some t => encodable t = true
  | None => True
  end.

(** A lower-case hexadecimal digit. *)
Definition is_hex (c : Z) : Prop :=
  48 <= c <= 57 \/ 97 <= c <= 102.

(** The state [persist_chunk] leaves after its REPLACE and commit. *)
Definition with_chunk (c : Conn) (chunk_id : str) (row : ChunkRow) : Conn :=
  let t := {| documents := documents (working c);
              chunks := <[chunk_id := row]>
                          (filter (fun kr => negb (same_doc_hash (snd kr) row))
                                  (chunks (working c))) |} in
  {| durable := t; working := t; faults := [] |}.

(** The [chunks] table after REPLACE of one row. *)
Definition replaced (chunk_id : str) (row : ChunkRow)
           (m : gmap (list Z) ChunkRow) : gmap (list Z) ChunkRow :=
  <[chunk_id := row]>
    (filter (fun kr => negb (same_doc_hash (snd kr) row)) m).

(** The [chunks] table after REPLACE of several rows, in order. *)
Definition replaced_all (rows : list (str * ChunkRow))
           (m : gmap (list Z) ChunkRow) : gmap (list Z) ChunkRow :=
  fold_left (fun m kr => replaced (fst kr) (snd kr) m) rows m.

(** The key and the row of a chunk in the store: the row carries the
    chunk's own text, page range and section, the digest of the text and
    the digest of the versioned text; the key is the [chunk_id]. *)
Definition stored_as (v : versions) (doc_id : str) (ch : chunk_input)
           (kr : str * ChunkRow) : Prop :=
  exists h hc : str,
    sha256_text (ci_text ch) = Some h
    /\ sha256_text (versioned_text v (ci_text ch)) = Some hc
    /\ kr = (chunk_id_of doc_id h,
             {| chunk_doc_id := doc_id; page_start := ci_page_s ch;
                page_end := ci_page_e ch; section := ci_section ch;
                chunk_hash := h; content_hash := hc;
                chunk_text := ci_text ch |}).

(** Atomicity of one document's ingestion, as §4.5 and §7 of the
    specification ask for it: when the ingestion fails, the committed store
    is the one from before; when it succeeds with a change, the document
    carries the new hash and every chunk is there. *)
Definition ingestion_atomic (v : versions)
           (doc_id source_path norm_text : str) (mtime : Q)
           (cs : list chunk_input) (c : Conn) : Prop :=
  let r := ingest_document v doc_id source_path norm_text mtime cs c in
  match fst r with
  | Raise _ => durable (snd r) = durable c
  | Ok _ => True
  end.

(** A store whose sixth call into sqlite3 fails: the three of
    [upsert_document] and the two of the first [persist_chunk] succeed, the
    REPLACE of the second chunk does not. *)
Definition failing_conn : Conn :=
  {| durable := no_tables; working := no_tables;
     faults := [false; false; false; false; false; true] |}.

Definition two_chunks : list chunk_input :=
  [ {| ci_text := lit "first"; ci_page_s := Some 1; ci_page_e := Some 1;
       ci_section := None |};
    {| ci_text := lit "second"; ci_page_s := Some 2; ci_page_e := Some 2;
       ci_section := None |} ].

(** The entries of a call log that are title extraction. *)
Definition is_title_fn (f : fn) : bool :=
  match f with
  | F_get_title | F_extract_pdf_title | F_extract_docx_title => true
  | _ => false
  end.

(** A store holding one titled document. *)
Definition titled_conn : Conn :=
  let t := {| documents :=
                {[ sample_doc_id :=
                     {| source_path := sample_path;
                        title := Some (lit "Annual Report");
                        file_hash := lit "00";
                        modified_at := 1600000000 |} ]};
              chunks := ∅ |} in
  {| durable := t; working := t; faults := [] |}.

(** An environment for [add_doc] in which every collaborator works and no
    file can be parsed. *)
Definition sample_world : World :=
  {| getenv_UPLOAD_FOLDER := Some (lit "/srv/uploads");
     root_path_uploads := lit "/app/uploads";
     makedirs := Ok tt;
     uuid4 := sample_doc_id;
     now_timestamp := 1700000000;
     fitz_open := fun _ => Raise ExternalError;
     Document := fun _ => Raise ExternalError |}.

Definition sample_upload : Upload :=
  {| filename := Some (lit "report.pdf"); save := fun _ => Ok tt |}.

(** The tables for ASCII-only runs: no character past ASCII is a word
    character, and each lowers to itself. *)
Definition ascii_alnum : Z -> bool := fun _ => false.
Definition ascii_lower : Z -> list Z := fun c => [c].

(** Two soft wraps that share a word character: a-, newline, b-, newline, c. *)
Definition overlap_sample : str :=
  lit "a-" ++ [LF] ++ lit "b-" ++ [LF] ++ lit "c".

(** The text of one page: the block text when it is not empty, otherwise
    what the recognizer reads at zoom 2, both stripped. *)
Definition needs_ocr (p : Page) : bool :=
  negb (nonempty (strip (_blocks_text p))).

Definition page_text (p : Page) : str :=
  if needs_ocr p then strip (recognize p 2) else strip (_blocks_text p).

(** The recognizer calls of a run over pages numbered from [k]. *)
Fixpoint ocr_calls_from (k : nat) (doc : list Page) : list (nat * Q) :=
  match doc with
  | [] => []
  | p :: rest =>
    if needs_ocr p then (k, 2%Q) :: ocr_calls_from (S k) rest
    else ocr_calls_from (S k) rest
  end.

(** Blocks in reading order: by rounded top edge, then rounded left edge. *)
Definition block_le (b b' : Block) : Prop :=
  key_leb (sort_key b) (sort_key b') = true.

(** Blocks at one rounded position. *)
Definition at_key (k : Z * Z) (b : Block) : bool :=
  (fst (sort_key b) =? fst k) && (snd (sort_key b) =? snd k).

(** A page with two blocks at one rounded position and one above them. *)
Definition tied_page : Page :=
  {| extractBLOCKS :=
       [ {| b0 := 72; b1 := 200.001; b4 := Some (lit "first") |};
         {| b0 := 72.002; b1 := 200; b4 := Some (lit "second") |};
         {| b0 := 72; b1 := 100; b4 := Some (lit "top") |} ];
     recognize := fun _ => [] |}.

(** The text C4 promises: the page texts joined and normalized, with no
    stripping of the joined text. *)
Definition joined_page_texts (ua : Z -> bool) (doc : list Page) : str :=
  _normalize ua (join page_separator (map page_text doc)).

(** A scanned, blank first page (no block, nothing recognized) and a second
    page with one block. *)
Definition blank_then_text : list Page :=
  [ {| extractBLOCKS := []; recognize := fun _ => [] |};
    {| extractBLOCKS := [ {| b0 := 72; b1 := 72; b4 := Some (lit "Hi") |} ];
       recognize := fun _ => lit "unused" |} ].

(** The text of a response, as the caller of the completion reads it. *)
Definition response_text (resp : completion) : str :=
  match resp with
  | NoChoices => []
  | Message c => or_empty c
  end.

(** An uploaded PDF that can be read and parsed. *)
Definition pdf_readable (file : PdfFile) : Prop :=
  exists (pos : Z) (data : list Z) (pages : list (option str)),
    stream_tell file = Ok pos /\ file_read file = Ok data
    /\ fitz_open_stream file = Ok pages.



(** A collaborator that answers every prompt with a title line followed by
    a long explanation: 263 characters in all. *)
Definition long_response : str :=
  lit "Report" ++ [LF] ++ repeat 120 256.

Definition chatty_env : TitleEnv :=
  {| api_key := Some (lit "sk-test");
     OpenAI := Ok tt;
     chat_create := fun _ => Ok (Message (Some long_response)) |}.

Definition one_paragraph : list Paragraph :=
  [ {| para_text := Some (lit "Quarterly Report 2024"); para_page_break := false |} ].





(** The line of a response the resolvers judge: the first line that is not
    blank, stripped of white space and then of quotes and spaces. *)
Definition title_line (resp : completion) : str :=
  strip_by quote_or_space
    (first_nonblank (splitlines (strip (response_text resp)))).


(** A readable one-page PDF. *)
Definition sample_pdf : PdfFile :=
  {| stream_tell := Ok 0;
     file_read := Ok [37; 80; 68; 70];
     fitz_open_stream := Ok [Some (lit "Quarterly Report 2024")] |}.

(** An upload whose bytes are no PDF. *)
Definition corrupt_pdf : PdfFile :=
  {| stream_tell := Ok 0;
     file_read := Ok [110; 111; 112; 101];
     fitz_open_stream := Raise ExternalError |}.

(** Rule 1 in the specification's words: every CRLF and every lone CR
    becomes LF. *)
Fixpoint unify_line_endings (s : str) : str :=
  match s with
  | [] => []
  | c :: t =>
    if c =? CR then
      match t with
      | d :: t' => if d =? LF then LF :: unify_line_endings t'
                   else LF :: unify_line_endings t
      | [] => [LF]
      end
    else c :: unify_line_endings t
  end.

(** * Further notions *)

(** A text the normalizer has nothing to do on. *)
Definition clean_text (ua : Z -> bool) (n : str) : Prop :=
  ~ In CR n /\ ~ In LDQUO n /\ ~ In RDQUO n /\ ~ In LSQUO n /\ ~ In RSQUO n
  /\ has_soft_wrap ua n = false /\ has_run3 n = false.

(** The unique index of [chunks] over [(doc_id, chunk_hash)]. *)
Definition unique_doc_hash (m : gmap (list Z) ChunkRow) : Prop :=
  forall (k1 k2 : str) (r1 r2 : ChunkRow),
    m !! k1 = Some r1 -> m !! k2 = Some r2 ->
    same_doc_hash r1 r2 = true -> k1 = k2.

(** A code point [str.encode] refuses. *)
Definition lone_surrogate (c : Z) : Prop := 0xD800 <= c <= 0xDFFF.

(** A store holding one chunk of the sample document. *)
Definition first_chunk_id : str :=
  chunk_id_of sample_doc_id (sha256_bytes (lit "first")).

Definition first_chunk_row : ChunkRow :=
  {| chunk_doc_id := sample_doc_id; page_start := Some 1; page_end := Some 1;
     section := None; chunk_hash := sha256_bytes (lit "first");
     content_hash := sha256_bytes (lit "first|tok=1|seg=1");
     chunk_text := lit "first" |}.

Definition one_chunk_conn : Conn :=
  let t := {| documents := ∅;
              chunks := {[ first_chunk_id := first_chunk_row ]} |} in
  {| durable := t; working := t; faults := [] |}.

(** A store in which the chunk reading first sits under a key of an older
    scheme, next to a chunk of another document. *)
Definition legacy_chunk_id : str := lit "legacy-1".
Definition other_chunk_id : str := lit "9a0b:5e1f".

Definition legacy_conn : Conn :=
  let t := {| documents := ∅;
              chunks :=
                <[ other_chunk_id :=
                     {| chunk_doc_id := lit "9a0b"; page_start := None;
                        page_end := None; section := None;
                        chunk_hash := sha256_bytes (lit "first");
                        content_hash := lit "00";
                        chunk_text := lit "first" |} ]>
                {[ legacy_chunk_id := first_chunk_row ]} |} in
  {| durable := t; working := t; faults := [] |}.

(** The full stop. *)
Definition DOT : Z := 46.

(** What a string of a UUID is made of: thirty-six characters, each a
    lower-case hexadecimal digit or a hyphen. *)
Definition uuid_like (u : str) : Prop :=
  length u = 36%nat /\ Forall (fun c => is_hex c \/ c = HYPHEN) u.

(** The folder [add_doc] stores uploads in. *)
Definition upload_folder_of (w : World) : str :=
  match getenv_UPLOAD_FOLDER w with
  | Some (c :: f) => c :: f
  | _ => root_path_uploads w
  end.

(** An environment whose identifiers are UUIDs and whose PDF parser works:
    every path opens as a one-page document reading Hi. *)
Definition uuid_world : World :=
  {| getenv_UPLOAD_FOLDER := None;
     root_path_uploads := lit "/app/uploads";
     makedirs := Ok tt;
     uuid4 := lit "3f2b8c1e-9d4a-4c6b-8e1f-0a1b2c3d4e5f";
     now_timestamp := 1700000000;
     fitz_open := fun _ => Ok blank_then_text;
     Document := fun _ => Ok [lit "Hi"] |}.

(** How [_extract_pdf_title] can fail with [e]: reading the position,
    reading the bytes, parsing them, or, with a first page that has text
    and a credential at hand, building the client. *)
Definition pdf_title_failure (env : TitleEnv) (file : PdfFile) (e : exn)
  : Prop :=
  stream_tell file = Raise e
  \/ (exists pos : Z, stream_tell file = Ok pos /\ file_read file = Raise e)
  \/ (exists (pos d : Z) (data : list Z),
        stream_tell file = Ok pos /\ file_read file = Ok (d :: data)
        /\ fitz_open_stream file = Raise e)
  \/ (exists (pos d : Z) (data : list Z) (page : option str)
             (pages : list (option str)),
        stream_tell file = Ok pos /\ file_read file = Ok (d :: data)
        /\ fitz_open_stream file = Ok (page :: pages)
        /\ nonempty (strip (or_empty page)) = true
        /\ has_key env = true
        /\ OpenAI env = Raise e).

(** A collaborator that answers, after a blank line, with a quoted title
    and a second line. *)
Definition quoting_env : TitleEnv :=
  {| api_key := Some (lit "sk-test");
     OpenAI := Ok tt;
     chat_create := fun _ =>
       Ok (Message (Some ([LF; SPACE] ++ [DQUOTE] ++ lit "Annual Report"
                          ++ [DQUOTE; SPACE; CR; LF] ++ lit "(from page 1)"))) |}.

(** * Properties *)

(** ** Hasher: test vectors *)

Example sha256_constants :
  nth 0 K256 0 = 0x428a2f98 /\ nth 63 K256 0 = 0xc67178f2
  /\ length K256 = 64%nat /\ sa H0 = 0x6a09e667 /\ sh H0 = 0x5be0cd19.
Proof. vm_compute. repeat split. Qed.

Example sha256_empty :
  sha256_text [] =
  Some (lit "e3b0c44298fc1c149afbf4c8996fb92427ae41e4649b934ca495991b7852b855").
Proof. vm_compute. reflexivity. Qed.

Example sha256_abc :
  sha256_text (lit "abc") =
  Some (lit "ba7816bf8f01cfea414140de5dae2223b00361a396177a9cb410ff61f20015ad").
Proof. vm_compute. reflexivity. Qed.

Example sha256_two_blocks :
  sha256_text (repeat 120 120%nat) =
  Some (lit "13f05a0b594787f5ecd315edc96141bd3243203d1b7d4f0836f37308b276ba98").
Proof. vm_compute. reflexivity. Qed.

Example sha256_non_ascii :
  sha256_text [LDQUO; 0xE9; 0x1F600] =
  Some (lit "ce2faff1336601014eefdaaca37aea2e3b48381785334382819efd8057c134cc").
Proof. vm_compute. reflexivity. Qed.

(** ** Normalizer *)

Example normalize_sample ua :
  _normalize ua (lit "co-" ++ [CR; LF] ++ lit "operate " ++ [LDQUO] ++ lit "x"
                 ++ [RSQUO; CR; CR; LF; LF; LF] ++ lit "y")
  = lit "cooperate " ++ [DQUOTE] ++ lit "x" ++ [SQUOTE; LF; LF] ++ lit "y".
Proof. vm_compute. reflexivity. Qed.

(** ** Basic facts on texts *)

Lemma text_eqb_eq (a b : str) : text_eqb a b = true <-> a = b.
Proof.
  revert b; induction a as [|x a IH]; intros [|y b]; simpl; split;
    try congruence; try reflexivity.
  - intros H. apply andb_true_iff in H as [Hx Hab].
    apply Z.eqb_eq in Hx. apply IH in Hab. congruence.
  - intros [= -> ->]. rewrite Z.eqb_refl. simpl. now apply IH.
Qed.

Lemma text_eqb_refl (a : str) : text_eqb a a = true.
Proof. now apply text_eqb_eq. Qed.

Lemma text_eqb_neq (a b : str) : text_eqb a b = false <-> a <> b.
Proof.
  split.
  - intros H Heq. apply text_eqb_eq in Heq. congruence.
  - intros H. destruct (text_eqb a b) eqn:E; [|reflexivity].
    apply text_eqb_eq in E. contradiction.
Qed.

(** ** UTF-8 and decimal numerals *)

Lemma utf8_encode_app (a b : str) :
  utf8_encode (a ++ b) =
  match utf8_encode a, utf8_encode b with
  | Some x, Some y => Some (x ++ y)
  | _, _ => None
  end.
Proof.
  induction a as [|c a IH]; simpl.
  - now destruct (utf8_encode b).
  - rewrite IH. destruct (utf8_char c) as [bs|]; [|reflexivity].
    destruct (utf8_encode a) as [x|]; [|reflexivity].
    destruct (utf8_encode b) as [y|]; [|reflexivity].
    now rewrite app_assoc.
Qed.

Lemma utf8_encode_ascii (s : str) :
  Forall (fun c => 0 <= c < 128) s -> utf8_encode s = Some s.
Proof.
  induction 1 as [|c s Hc _ IH]; [reflexivity|].
  simpl. rewrite IH. unfold utf8_char.
  destruct (Z.ltb_spec c 0); [lia|].
  destruct (Z.ltb_spec c 128); [reflexivity|lia].
Qed.

Lemma text_of_uint_digits (d : Decimal.uint) :
  Forall (fun c => 48 <= c <= 57) (text_of_uint d).
Proof. induction d; simpl; constructor; (lia || assumption). Qed.


Lemma str_of_int_chars (n : Z) :
  Forall (fun c => c = HYPHEN \/ 48 <= c <= 57) (str_of_int n).
Proof.
  unfold str_of_int. destruct (Z.to_int n) as [d|d].
  - eapply List.Forall_impl; [|apply text_of_uint_digits]. simpl. auto.
  - constructor; [now left|].
    eapply List.Forall_impl; [|apply text_of_uint_digits]. simpl. auto.
Qed.


Lemma str_of_int_ascii (n : Z) : Forall (fun c => 0 <= c < 128) (str_of_int n).
Proof.
  eapply List.Forall_impl; [|apply str_of_int_chars].
  simpl. unfold HYPHEN. intros c [->|H]; lia.
Qed.



Lemma versioned_text_encode (v : versions) (text : str) (bs : list Z) :
  utf8_encode text = Some bs ->
  utf8_encode (versioned_text v text) =
  Some (bs ++ lit "|tok=" ++ str_of_int (TOK_VER v)
           ++ lit "|seg=" ++ str_of_int (SEG_VER v)).
Proof.
  intros Hbs. unfold versioned_text. rewrite utf8_encode_app, Hbs.
  rewrite utf8_encode_ascii; [reflexivity|].
  repeat (apply Forall_app; split); try apply str_of_int_ascii;
    repeat constructor; vm_compute; congruence.
Qed.

(** ** The digest is sixty-four hexadecimal digits *)

Lemma hex_digit_is_hex (d : Z) : 0 <= d < 16 -> is_hex (hex_digit d).
Proof.
  intros Hd. unfold hex_digit, is_hex.
  destruct (Z.ltb_spec d 10); lia.
Qed.

Lemma nibble_range (x : Z) : 0 <= Z.land x 0xF < 16.
Proof.
  change 0xF with (Z.ones 4). rewrite Z.land_ones by lia.
  apply Z.mod_pos_bound. lia.
Qed.

Lemma hex_word_is_hex (x : Z) : Forall is_hex (hex_word x).
Proof.
  unfold hex_word. apply List.Forall_map, List.Forall_forall.
  intros i _. apply hex_digit_is_hex, nibble_range.
Qed.

Lemma hex_word_length (x : Z) : length (hex_word x) = 8%nat.
Proof. reflexivity. Qed.

Lemma sha256_bytes_length (bs : list Z) : length (sha256_bytes bs) = 64%nat.
Proof.
  unfold sha256_bytes, hexdigest.
  repeat rewrite length_app. repeat rewrite hex_word_length. reflexivity.
Qed.

Lemma sha256_bytes_is_hex (bs : list Z) : Forall is_hex (sha256_bytes bs).
Proof.
  unfold sha256_bytes, hexdigest.
  repeat (apply Forall_app; split); apply hex_word_is_hex.
Qed.

Lemma encodable_ascii (s : str) :
  Forall (fun c => 0 <= c < 128) s -> encodable s = true.
Proof. intros H. unfold encodable. now rewrite utf8_encode_ascii. Qed.

Lemma encodable_app (a b : str) :
  encodable (a ++ b) = encodable a && encodable b.
Proof.
  unfold encodable. rewrite utf8_encode_app.
  now destruct (utf8_encode a), (utf8_encode b).
Qed.

Lemma is_hex_ascii (s : str) :
  Forall is_hex s -> Forall (fun c => 0 <= c < 128) s.
Proof.
  intros H. eapply List.Forall_impl; [|exact H].
  unfold is_hex. intros c Hc. lia.
Qed.

Lemma sha256_bytes_encodable (bs : list Z) : encodable (sha256_bytes bs) = true.
Proof. apply encodable_ascii, is_hex_ascii, sha256_bytes_is_hex. Qed.

(** ** Counting digests *)

Lemma hex_value_range (c : Z) : is_hex c -> 0 <= hex_value c < 16.
Proof.
  unfold is_hex, hex_value. intros Hc. destruct (Z.leb_spec c 57); lia.
Qed.

Lemma hex_value_inj (c c' : Z) :
  is_hex c -> is_hex c' -> hex_value c = hex_value c' -> c = c'.
Proof.
  unfold is_hex, hex_value. intros Hc Hc'.
  destruct (Z.leb_spec c 57), (Z.leb_spec c' 57); lia.
Qed.

Lemma hex_number_range (s : str) :
  Forall is_hex s -> 0 <= hex_number s < 16 ^ Z.of_nat (length s).
Proof.
  induction 1 as [|c s Hc _ IH]; [simpl; lia|].
  cbn [hex_number length]. rewrite Nat2Z.inj_succ, Z.pow_succ_r by lia.
  pose proof (hex_value_range c Hc). lia.
Qed.

Lemma hex_number_inj (s s' : str) :
  Forall is_hex s -> Forall is_hex s' -> length s = length s' ->
  hex_number s = hex_number s' -> s = s'.
Proof.
  intros Hs. revert s'. induction Hs as [|c s Hc _ IH]; intros s' Hs' Hlen Heq.
  - destruct s'; [reflexivity|discriminate].
  - destruct Hs' as [|c' s' Hc' Hs']; [discriminate|].
    cbn [hex_number] in Heq.
    pose proof (hex_value_range c Hc). pose proof (hex_value_range c' Hc').
    assert (hex_value c = hex_value c' /\ hex_number s = hex_number s')
      as [Hv Hn] by lia.
    f_equal; [now apply hex_value_inj|].
    apply IH; [assumption|simpl in Hlen; lia|assumption].
Qed.

(** Among the first [n] values of a sequence there is a repeat, or none. *)
Lemma repeat_or_NoDup (g : nat -> nat) (n : nat) :
  (exists i j : nat, (i < j < n)%nat /\ g i = g j)
  \/ List.NoDup (map g (seq 0 n)).
Proof.
  induction n as [|n [(i & j & Hij & Heq)|Hnd]].
  - right. constructor.
  - left. exists i, j. split; [lia|exact Heq].
  - rewrite seq_S, map_app. cbn [map Nat.add].
    destruct (in_dec Nat.eq_dec (g n) (map g (seq 0 n))) as [Hin|Hout].
    + left. apply in_map_iff in Hin as (i & Heq & Hi). apply in_seq in Hi.
      exists i, n. split; [lia|exact Heq].
    + right. apply List.NoDup_app; [exact Hnd|repeat constructor; tauto|].
      intros x Hx [<-|[]]. contradiction.
Qed.

(** The pigeonhole principle: a sequence of values below [m] repeats. *)
Lemma pigeonhole_repeat (g : nat -> nat) (m : nat) :
  (forall i : nat, (g i < m)%nat) ->
  exists i j : nat, (i < j)%nat /\ g i = g j.
Proof.
  intros Hg. destruct (repeat_or_NoDup g (S m)) as [(i & j & Hij & Heq)|Hnd].
  - exists i, j. split; [lia|exact Heq].
  - exfalso.
    assert (Hincl : incl (map g (seq 0 (S m))) (seq 0 m)).
    { intros x Hx. apply in_map_iff in Hx as (i & <- & _).
      apply in_seq. specialize (Hg i). lia. }
    pose proof (List.NoDup_incl_length Hnd Hincl) as Hlen.
    rewrite length_map, !length_seq in Hlen. lia.
Qed.

(** A digest is one of 16^64 values, so every sequence of messages holds
    two, at different places, with one digest. *)
Lemma sha256_bytes_repeats (f : nat -> list Z) :
  exists i j : nat, (i < j)%nat /\ sha256_bytes (f i) = sha256_bytes (f j).
Proof.
  destruct (pigeonhole_repeat
              (fun n => Z.to_nat (hex_number (sha256_bytes (f n))))
              (Z.to_nat (16 ^ 64))) as (i & j & Hij & Heq).
  - intros n.
    pose proof (hex_number_range _ (sha256_bytes_is_hex (f n))) as Hr.
    rewrite sha256_bytes_length in Hr.
    apply Z2Nat.inj_lt; [apply Hr|apply Z.pow_nonneg; lia|apply Hr].
  - exists i, j. split; [exact Hij|].
    pose proof (hex_number_range _ (sha256_bytes_is_hex (f i))) as Hi.
    pose proof (hex_number_range _ (sha256_bytes_is_hex (f j))) as Hj.
    apply Z2Nat.inj in Heq; [|apply Hi|apply Hj].
    apply hex_number_inj; try apply sha256_bytes_is_hex; [|exact Heq].
    now rewrite !sha256_bytes_length.
Qed.

Lemma repeat_ascii (n : nat) : Forall (fun c => 0 <= c < 128) (repeat 97 n).
Proof. induction n; simpl; constructor; (lia || assumption). Qed.

(** ** Change-Detection Store *)

Lemma int_of_number_inject (n : Z) : int_of_number (inject_Z n) = n.
Proof. unfold int_of_number, inject_Z; simpl. apply Z.quot_1_r. Qed.

Lemma sha256_text_bytes (t : str) (bs : list Z) :
  utf8_encode t = Some bs -> sha256_text t = Some (sha256_bytes bs).
Proof. unfold sha256_text. now intros ->. Qed.

Lemma bind_text_run (t : str) (c : Conn) :
  encodable t = true -> bind_text t c = (Ok tt, c).
Proof. unfold bind_text. now intros ->. Qed.

Lemma upsert_document_unchanged c doc_id source_path norm_text mtime h :
  sha256_text norm_text = Some h ->
  encodable doc_id = true ->
  reliable c ->
  stored_hash c doc_id = Some h ->
  upsert_document doc_id source_path norm_text mtime c = (Ok false, c).
Proof.
  unfold reliable, stored_hash. intros Hh Hd Hf Hs.
  unfold upsert_document, bind, sha256_text_m, select_file_hash, bind,
    sqlite_call, ret.
  rewrite Hh, (bind_text_run _ _ Hd), Hf. simpl.
  rewrite Hs, text_eqb_refl. reflexivity.
Qed.

Lemma upsert_document_changed c doc_id source_path norm_text mtime h :
  sha256_text norm_text = Some h ->
  encodable doc_id = true ->
  encodable source_path = true ->
  encodable h = true ->
  reliable c ->
  in_int64 (int_of_number mtime) = true ->
  stored_hash c doc_id <> Some h ->
  upsert_document doc_id source_path norm_text mtime c =
  (Ok true, with_document c doc_id
              {| source_path := source_path; title := None;
                 file_hash := h; modified_at := int_of_number mtime |}).
Proof.
  unfold reliable, stored_hash. intros Hh Hd Hp He Hf Hm Hs.
  assert (Hwrite : forall c0, faults c0 = [] -> working c0 = working c ->
    (replace_into_documents doc_id source_path h (int_of_number mtime) ;;
     commit ;; ret true)%db c0
    = (Ok true, with_document c doc_id
                  {| source_path := source_path; title := None;
                     file_hash := h; modified_at := int_of_number mtime |})).
  { intros c0 Hf0 Hw0.
    unfold replace_into_documents, bind_int, bind, commit, bind, sqlite_call,
      write, ret.
    rewrite (bind_text_run _ _ Hd), (bind_text_run _ _ Hp),
      (bind_text_run _ _ He), Hm. simpl. rewrite Hf0. simpl. rewrite Hf0.
    unfold with_document. simpl. now rewrite Hw0. }
  unfold upsert_document, sha256_text_m. rewrite Hh.
  unfold bind at 1. unfold ret at 1. unfold bind at 1.
  unfold select_file_hash, bind, sqlite_call.
  rewrite (bind_text_run _ _ Hd), Hf.
  destruct (file_hash <$> documents (working c) !! doc_id) as [h'|] eqn:E.
  - destruct (text_eqb h' h) eqn:Eh.
    + apply text_eqb_eq in Eh. subst. contradiction.
    + now apply Hwrite.
  - now apply Hwrite.
Qed.

Lemma stored_hash_with_document c doc_id row :
  stored_hash (with_document c doc_id row) doc_id = Some (file_hash row).
Proof.
  unfold stored_hash, with_document; simpl. now rewrite lookup_insert_eq.
Qed.

(** C1, as the code has it.  [upsert_document] computes [file_hash] as the
    SHA-256 hex digest of the UTF-8 bytes of [norm_text].  When the
    document's stored hash equals it, the call returns [false] and leaves
    the connection as it was; otherwise it replaces the row, which then
    carries the new hash, commits, and returns [true].  Hence a second call
    with the same text returns [false] whatever the other arguments; a
    second call with any text stores the digest of that text, and it returns
    [true] exactly when that digest is not the stored one, leaving the
    connection as it was when it returns [false].  (The texts are
    encodable, the storage does not fail and the timestamp fits an SQLite
    integer.) *)
Theorem upsert_document_change_detection :
  forall (c : Conn) (doc_id source_path norm_text : str) (mtime : Q)
         (bs : list Z),
    utf8_encode norm_text = Some bs ->
    encodable doc_id = true ->
    encodable source_path = true ->
    reliable c ->
    in_int64 (int_of_number mtime) = true ->
    exists (changed : bool) (c1 : Conn),
      upsert_document doc_id source_path norm_text mtime c = (Ok changed, c1)
      /\ (stored_hash c doc_id = Some (sha256_bytes bs) ->
          changed = false /\ c1 = c)
      /\ (stored_hash c doc_id <> Some (sha256_bytes bs) ->
          changed = true
          /\ documents (working c1) !! doc_id =
             Some {| source_path := source_path; title := None;
                     file_hash := sha256_bytes bs;
                     modified_at := int_of_number mtime |}
          /\ (forall d : str, d <> doc_id ->
                documents (working c1) !! d = documents (working c) !! d)
          /\ chunks (working c1) = chunks (working c)
          /\ durable c1 = working c1)
      /\ stored_hash c1 doc_id = Some (sha256_bytes bs)
      /\ (forall (source_path' : str) (mtime' : Q),
            upsert_document doc_id source_path' norm_text mtime' c1
            = (Ok false, c1))
      /\ (forall (norm_text' source_path' : str) (mtime' : Q) (bs' : list Z),
            utf8_encode norm_text' = Some bs' ->
            encodable source_path' = true ->
            in_int64 (int_of_number mtime') = true ->
            exists (changed' : bool) (c2 : Conn),
              upsert_document doc_id source_path' norm_text' mtime' c1
              = (Ok changed', c2)
              /\ stored_hash c2 doc_id = Some (sha256_bytes bs')
              /\ (changed' = true <-> sha256_bytes bs' <> sha256_bytes bs)
              /\ (changed' = false -> c2 = c1)).
Proof.
  intros c doc_id source_path norm_text mtime bs Hbs Hdoc Hpath Hrel Hm.
  pose proof (sha256_text_bytes _ _ Hbs) as Hh.
  pose proof (sha256_bytes_encodable bs) as Henc.
  set (h := sha256_bytes bs) in *.
  assert (Hsecond : forall c1, reliable c1 -> stored_hash c1 doc_id = Some h ->
    (forall source_path' mtime',
        upsert_document doc_id source_path' norm_text mtime' c1 = (Ok false, c1))
    /\ (forall norm_text' source_path' mtime' bs',
          utf8_encode norm_text' = Some bs' ->
          encodable source_path' = true ->
          in_int64 (int_of_number mtime') = true ->
          exists changed' c2,
            upsert_document doc_id source_path' norm_text' mtime' c1
            = (Ok changed', c2)
            /\ stored_hash c2 doc_id = Some (sha256_bytes bs')
            /\ (changed' = true <-> sha256_bytes bs' <> h)
            /\ (changed' = false -> c2 = c1))).
  { intros c1 Hrel1 Hs1. split.
    - intros sp' m'. now apply upsert_document_unchanged with (h := h).
    - intros t' sp' m' bs' Hbs' Hsp' Hm'.
      pose proof (sha256_text_bytes _ _ Hbs') as Hh'.
      destruct (decide (sha256_bytes bs' = h)) as [Heq|Hdiff].
      + exists false, c1. split; [|split; [|split]].
        * apply upsert_document_unchanged with (h := sha256_bytes bs');
            try assumption. now rewrite Heq.
        * now rewrite Heq.
        * split; [intros Hf; discriminate Hf|intros Hne; contradiction].
        * reflexivity.
      + eexists true, _. split; [|split; [|split]].
        * apply (upsert_document_changed c1 doc_id sp' t' m' (sha256_bytes bs'));
            try assumption; [apply sha256_bytes_encodable|].
          rewrite Hs1. congruence.
        * apply stored_hash_with_document.
        * split; [intros _; exact Hdiff|reflexivity].
        * intros Hf. discriminate Hf. }
  destruct (decide (stored_hash c doc_id = Some h)) as [Hs|Hs].
  - exists false, c. split; [now apply upsert_document_unchanged with (h := h)|].
    split; [auto|]. split; [contradiction|]. split; [assumption|].
    now apply Hsecond.
  - eexists true, _. split;
      [apply (upsert_document_changed c doc_id source_path norm_text mtime h);
       assumption|].
    split; [contradiction|]. split.
    + intros _. split; [reflexivity|]. simpl. split; [apply lookup_insert_eq|].
      split; [|split; reflexivity].
      intros d Hd. now apply lookup_insert_ne.
    + split; [apply stored_hash_with_document|].
      apply Hsecond; [reflexivity|apply stored_hash_with_document].
Qed.

Lemma upsert_document_change_detection_witness :
  utf8_encode (lit "abc") = Some [97; 98; 99]
  /\ encodable sample_doc_id = true
  /\ encodable sample_path = true
  /\ reliable fresh_conn
  /\ in_int64 (int_of_number 1700000000) = true
  /\ exists c1 c2 : Conn,
       upsert_document sample_doc_id sample_path (lit "abc") 1700000000 fresh_conn
       = (Ok true, c1)
       /\ stored_hash c1 sample_doc_id = Some (sha256_bytes [97; 98; 99])
       /\ upsert_document sample_doc_id sample_path (lit "abc") 1700000001 c1
          = (Ok false, c1)
       /\ upsert_document sample_doc_id sample_path (lit "abd") 1700000001 c1
          = (Ok true, c2)
       /\ stored_hash c2 sample_doc_id = Some (sha256_bytes [97; 98; 100])
       /\ sha256_bytes [97; 98; 100] <> sha256_bytes [97; 98; 99].
Proof.
  assert (He : utf8_encode (lit "abc") = Some [97; 98; 99]) by reflexivity.
  assert (Hd : encodable sample_doc_id = true) by reflexivity.
  assert (Hp : encodable sample_path = true) by reflexivity.
  assert (Hr : reliable fresh_conn) by reflexivity.
  assert (Hm : in_int64 (int_of_number 1700000000) = true) by reflexivity.
  assert (Hdigests : sha256_bytes [97; 98; 100] <> sha256_bytes [97; 98; 99])
    by (vm_compute; intros Hc; discriminate Hc).
  repeat (split; [assumption|]).
  destruct (upsert_document_change_detection fresh_conn sample_doc_id
              sample_path (lit "abc") 1700000000 [97; 98; 99] He Hd Hp Hr Hm)
    as (changed & c1 & Hrun & _ & Hnew & Hst & Hsame & Hother).
  destruct Hnew as (-> & _); [intros Hc; discriminate Hc|].
  destruct (Hother (lit "abd") sample_path 1700000001%Q [97; 98; 100])
    as (changed' & c2 & Hrun2 & Hst2 & Hiff & _);
    [reflexivity|reflexivity|reflexivity|].
  rewrite (proj2 Hiff Hdigests) in Hrun2.
  exists c1, c2. repeat split; try assumption. apply Hsame.
Defined.

(** C1, as the claim has it, fails: a digest has sixty-four hexadecimal
    digits, so among the texts a, aa, aaa, ... two have one digest; once
    the first of them is stored, a call with the second returns [false] and
    writes nothing, the text having changed. *)
Lemma change_detection_misses_a_text :
  exists (t t' : str) (c1 : Conn),
    t <> t'
    /\ upsert_document sample_doc_id sample_path t 1700000000 fresh_conn
       = (Ok true, c1)
    /\ upsert_document sample_doc_id sample_path t' 1700000001 c1
       = (Ok false, c1).
Proof.
  destruct (sha256_bytes_repeats (fun n => repeat 97 n))
    as (i & j & Hij & Heq).
  pose proof (utf8_encode_ascii _ (repeat_ascii i)) as Hi.
  pose proof (utf8_encode_ascii _ (repeat_ascii j)) as Hj.
  assert (Hd : encodable sample_doc_id = true) by reflexivity.
  assert (Hp : encodable sample_path = true) by reflexivity.
  exists (repeat 97 i), (repeat 97 j). eexists.
  split; [|split].
  - intros Ht. apply (f_equal (@length Z)) in Ht.
    rewrite !repeat_length in Ht. lia.
  - apply (upsert_document_changed fresh_conn sample_doc_id sample_path
             (repeat 97 i) 1700000000 (sha256_bytes (repeat 97 i)));
      [now apply sha256_text_bytes|exact Hd|exact Hp
      |apply sha256_bytes_encodable|reflexivity|reflexivity|].
    unfold stored_hash, fresh_conn, no_tables. cbn [working documents].
    rewrite lookup_empty. intros Hc. discriminate Hc.
  - apply (upsert_document_unchanged _ sample_doc_id sample_path
             (repeat 97 j) 1700000001 (sha256_bytes (repeat 97 i)));
      [rewrite Heq; now apply sha256_text_bytes|exact Hd|reflexivity|].
    apply stored_hash_with_document.
Qed.

(** ** [persist_chunk] on a reliable connection *)

Lemma bind_opt_int_run (n : option Z) (c : Conn) :
  bindable n -> bind_opt_int n c = (Ok n, c).
Proof.
  destruct n as [n|]; simpl; [|reflexivity].
  intros Hn. unfold bind_opt_int, bind, bind_int, ret. now rewrite Hn.
Qed.

Lemma bind_opt_text_run (t : option str) (c : Conn) :
  bindable_text t -> bind_opt_text t c = (Ok tt, c).
Proof.
  destruct t as [t|]; simpl; [|reflexivity]. apply bind_text_run.
Qed.

Lemma chunk_id_encodable (doc_id digest : str) :
  encodable doc_id = true -> Forall is_hex digest ->
  encodable (chunk_id_of doc_id digest) = true.
Proof.
  intros Hd Hx. unfold chunk_id_of. rewrite !encodable_app, Hd. simpl.
  apply encodable_ascii, is_hex_ascii. now apply Forall_take.
Qed.

Lemma bind_run {A B} (m : M A) (k : A -> M B) (c c' : Conn) (a : A) :
  m c = (Ok a, c') -> bind m k c = k a c'.
Proof. unfold bind. now intros ->. Qed.

Lemma commit_run (c : Conn) :
  reliable c ->
  commit c = (Ok tt, {| durable := working c; working := working c;
                        faults := [] |}).
Proof.
  unfold reliable. intros Hf. unfold commit, bind, sqlite_call.
  rewrite Hf. simpl. now rewrite Hf.
Qed.

Lemma replace_into_chunks_run (chunk_id : str) (r : ChunkRow) (c : Conn) :
  encodable chunk_id = true ->
  encodable (chunk_doc_id r) = true ->
  bindable (page_start r) -> bindable (page_end r) ->
  bindable_text (section r) ->
  encodable (chunk_hash r) = true ->
  encodable (content_hash r) = true ->
  encodable (chunk_text r) = true ->
  reliable c ->
  replace_into_chunks chunk_id r c =
  (Ok tt,
   {| durable := durable c;
      working :=
        {| documents := documents (working c);
           chunks := <[chunk_id := r]>
                       (filter (fun kr => negb (same_doc_hash (snd kr) r))
                               (chunks (working c))) |};
      faults := [] |}).
Proof.
  unfold reliable. intros Hid Hdoc Hps Hpe Hsec Hch Hco Htx Hf.
  unfold replace_into_chunks.
  rewrite (bind_run _ _ c c tt (bind_text_run _ c Hid)).
  rewrite (bind_run _ _ c c tt (bind_text_run _ c Hdoc)).
  rewrite (bind_run _ _ c c _ (bind_opt_int_run _ c Hps)).
  rewrite (bind_run _ _ c c _ (bind_opt_int_run _ c Hpe)).
  rewrite (bind_run _ _ c c tt (bind_opt_text_run _ c Hsec)).
  rewrite (bind_run _ _ c c tt (bind_text_run _ c Hch)).
  rewrite (bind_run _ _ c c tt (bind_text_run _ c Hco)).
  rewrite (bind_run _ _ c c tt (bind_text_run _ c Htx)).
  unfold bind, sqlite_call, write. rewrite Hf. simpl. now rewrite Hf.
Qed.

Lemma persist_chunk_run v c doc_id text page_s page_e section bs :
  utf8_encode text = Some bs ->
  encodable doc_id = true ->
  bindable_text section ->
  reliable c ->
  bindable page_s ->
  bindable page_e ->
  forall cbs, utf8_encode (versioned_text v text) = Some cbs ->
  persist_chunk v doc_id text page_s page_e section c =
  (Ok (chunk_id_of doc_id (sha256_bytes bs), sha256_bytes cbs),
   with_chunk c (chunk_id_of doc_id (sha256_bytes bs))
     {| chunk_doc_id := doc_id; page_start := page_s; page_end := page_e;
        section := section; chunk_hash := sha256_bytes bs;
        content_hash := sha256_bytes cbs; chunk_text := text |}).
Proof.
  intros Hbs Hd Hsec Hf Hps Hpe cbs Hcbs.
  assert (Htext : encodable text = true) by (unfold encodable; now rewrite Hbs).
  pose proof (chunk_id_encodable doc_id (sha256_bytes bs) Hd
                (sha256_bytes_is_hex bs)) as Hid.
  assert (H1 : sha256_text_m text c = (Ok (sha256_bytes bs), c))
    by (unfold sha256_text_m; now rewrite (sha256_text_bytes _ _ Hbs)).
  assert (H2 : sha256_text_m (versioned_text v text) c
               = (Ok (sha256_bytes cbs), c))
    by (unfold sha256_text_m; now rewrite (sha256_text_bytes _ _ Hcbs)).
  unfold persist_chunk.
  rewrite (bind_run _ _ c c _ H1).
  change (text ++ lit "|tok=" ++ str_of_int (TOK_VER v)
               ++ lit "|seg=" ++ str_of_int (SEG_VER v))
    with (versioned_text v text).
  rewrite (bind_run _ _ c c _ H2).
  change (doc_id ++ lit ":" ++ firstn 12 (sha256_bytes bs))
    with (chunk_id_of doc_id (sha256_bytes bs)).
  erewrite bind_run;
    [|apply replace_into_chunks_run; simpl; try assumption;
      apply sha256_bytes_encodable].
  erewrite bind_run; [|apply commit_run; reflexivity].
  reflexivity.
Qed.

(** C6. [persist_chunk] names a chunk by [doc_id], a colon and the first
    twelve hexadecimal digits of the SHA-256 digest of the text.  The page
    range, the section, the version tags and the state of the store have no
    part in it: two calls with the same [doc_id] and text return the same
    [chunk_id].  (The texts are encodable, the storage does not fail and
    the page numbers fit an SQLite integer.) *)
Theorem persist_chunk_id_stable :
  forall (v1 v2 : versions) (c1 c2 : Conn) (doc_id text : str) (bs : list Z)
         (ps1 pe1 ps2 pe2 : option Z) (sec1 sec2 : option str),
    utf8_encode text = Some bs ->
    encodable doc_id = true ->
    bindable_text sec1 -> bindable_text sec2 ->
    reliable c1 -> reliable c2 ->
    bindable ps1 -> bindable pe1 -> bindable ps2 -> bindable pe2 ->
    exists (prefix content1 content2 : str) (c1' c2' : Conn),
      persist_chunk v1 doc_id text ps1 pe1 sec1 c1
      = (Ok (doc_id ++ lit ":" ++ prefix, content1), c1')
      /\ persist_chunk v2 doc_id text ps2 pe2 sec2 c2
         = (Ok (doc_id ++ lit ":" ++ prefix, content2), c2')
      /\ prefix = firstn 12 (sha256_bytes bs)
      /\ length prefix = 12%nat
      /\ Forall is_hex prefix
      /\ reliable c1'.
Proof.
  intros v1 v2 c1 c2 doc_id text bs ps1 pe1 ps2 pe2 sec1 sec2
         Hbs Hd Hs1 Hs2 Hr1 Hr2 Hps1 Hpe1 Hps2 Hpe2.
  pose proof (versioned_text_encode v1 text bs Hbs) as Hv1.
  pose proof (versioned_text_encode v2 text bs Hbs) as Hv2.
  exists (firstn 12 (sha256_bytes bs)).
  do 4 eexists. split; [|split; [|split; [reflexivity|split; [|split]]]].
  - apply (persist_chunk_run v1 c1 doc_id text ps1 pe1 sec1 bs Hbs Hd Hs1 Hr1
             Hps1 Hpe1 _ Hv1).
  - apply (persist_chunk_run v2 c2 doc_id text ps2 pe2 sec2 bs Hbs Hd Hs2 Hr2
             Hps2 Hpe2 _ Hv2).
  - rewrite length_firstn, sha256_bytes_length. reflexivity.
  - apply Forall_take, sha256_bytes_is_hex.
  - reflexivity.
Qed.

Lemma persist_chunk_id_stable_witness :
  utf8_encode (lit "Lorem ipsum") = Some (lit "Lorem ipsum")
  /\ encodable sample_doc_id = true
  /\ bindable_text (Some (lit "Intro")) /\ bindable_text None
  /\ reliable fresh_conn
  /\ bindable (Some 1) /\ bindable (Some 2) /\ bindable None
  /\ exists (content1 content2 : str) (c1' c2' : Conn),
       persist_chunk source_versions sample_doc_id (lit "Lorem ipsum")
                     (Some 1) (Some 2) (Some (lit "Intro")) fresh_conn
       = (Ok (sample_doc_id ++ lit ":a9a66978f378", content1), c1')
       /\ persist_chunk source_versions sample_doc_id (lit "Lorem ipsum")
                        None None None c1'
          = (Ok (sample_doc_id ++ lit ":a9a66978f378", content2), c2').
Proof.
  assert (He : utf8_encode (lit "Lorem ipsum") = Some (lit "Lorem ipsum"))
    by reflexivity.
  assert (Hr : reliable fresh_conn) by reflexivity.
  assert (H1 : bindable (Some 1)) by reflexivity.
  assert (H2 : bindable (Some 2)) by reflexivity.
  assert (H0 : bindable None) by exact I.
  assert (Hd : encodable sample_doc_id = true) by reflexivity.
  assert (Hs : bindable_text (Some (lit "Intro"))) by reflexivity.
  assert (Hn : bindable_text None) by exact I.
  repeat (split; [assumption|]).
  destruct (persist_chunk_id_stable source_versions source_versions
              fresh_conn fresh_conn sample_doc_id (lit "Lorem ipsum")
              (lit "Lorem ipsum") (Some 1) (Some 2) None None
              (Some (lit "Intro")) None He Hd Hs Hn Hr Hr H1 H2 H0 H0)
    as (prefix & content1 & _ & c1' & _ & Hrun1 & _ & Hp & _ & _ & Hr1).
  destruct (persist_chunk_id_stable source_versions source_versions
              c1' c1' sample_doc_id (lit "Lorem ipsum")
              (lit "Lorem ipsum") None None None None
              None None He Hd Hn Hn Hr1 Hr1 H0 H0 H0 H0)
    as (prefix' & content2 & _ & c2' & _ & Hrun2 & _ & Hp' & _ & _ & _).
  exists content1, content2, c1', c2'.
  rewrite Hp in Hrun1. rewrite Hp' in Hrun2.
  split; [exact Hrun1|exact Hrun2].
Defined.





(** ** Commits and failures *)

Lemma pair_of_fst {A B} (p : A * B) (a : A) : fst p = a -> p = (a, snd p).
Proof. destruct p; simpl; congruence. Qed.

(** Unfolds a database operation and splits on every outcome in it. *)
Ltac db_cases :=
  unfold upsert_document, persist_chunk, replace_into_documents,
    replace_into_chunks, select_file_hash, commit, sqlite_call, write,
    bind_opt_int, bind_int, bind_opt_text, bind_text, sha256_text_m, bind,
    ret, raise;
  simpl;
  repeat (match goal with
          | |- context [match ?x with _ => _ end] =>
            lazymatch x with
            | context [match _ with _ => _ end] => fail
            | _ => destruct x eqn:?
            end
          end; simpl).

Lemma upsert_document_durable doc_id source_path norm_text mtime c :
  let r := upsert_document doc_id source_path norm_text mtime c in
  match fst r with
  | Ok true =>
    durable (snd r) = working (snd r)
    /\ file_hash <$> documents (working (snd r)) !! doc_id
       = sha256_text norm_text
  | Ok false => durable (snd r) = durable c /\ working (snd r) = working c
  | Raise _ => durable (snd r) = durable c
  end.
Proof.
  destruct c as [d w f]. db_cases; auto.
  all: split; [reflexivity|]; now rewrite lookup_insert_eq.
Qed.

Lemma persist_chunk_durable v doc_id text ps pe sec c :
  let r := persist_chunk v doc_id text ps pe sec c in
  documents (working (snd r)) = documents (working c)
  /\ match fst r with
     | Ok _ => durable (snd r) = working (snd r)
     | Raise _ => durable (snd r) = durable c
     end.
Proof.
  destruct c as [d w f]. db_cases; auto.
Qed.

Lemma persist_chunks_cons v doc_id ch cs c :
  persist_chunks v doc_id (ch :: cs) c =
  match persist_chunk v doc_id (ci_text ch) (ci_page_s ch) (ci_page_e ch)
                      (ci_section ch) c with
  | (Ok r, c1) =>
    match persist_chunks v doc_id cs c1 with
    | (Ok rs, c2) => (Ok (r :: rs), c2)
    | (Raise e, c2) => (Raise e, c2)
    end
  | (Raise e, c1) => (Raise e, c1)
  end.
Proof. reflexivity. Qed.

Lemma persist_chunks_documents v doc_id cs :
  forall c,
    documents (durable c) = documents (working c) ->
    let r := persist_chunks v doc_id cs c in
    documents (durable (snd r)) = documents (working c)
    /\ documents (working (snd r)) = documents (working c).
Proof.
  induction cs as [|ch cs IH]; intros c Hc; [simpl; auto|].
  cbv zeta. rewrite persist_chunks_cons.
  pose proof (persist_chunk_durable v doc_id (ci_text ch) (ci_page_s ch)
                (ci_page_e ch) (ci_section ch) c) as Hstep.
  cbv zeta in Hstep.
  destruct (persist_chunk v doc_id (ci_text ch) (ci_page_s ch) (ci_page_e ch)
              (ci_section ch) c) as [[r|e] c1]; simpl in Hstep;
    destruct Hstep as [Hw Hd].
  - specialize (IH c1). rewrite Hd in IH. specialize (IH eq_refl).
    cbv zeta in IH. rewrite Hw in IH.
    destruct (persist_chunks v doc_id cs c1) as [[rs|e] c2]; exact IH.
  - simpl. rewrite Hd. auto.
Qed.

Lemma same_doc_hash_sym (r r' : ChunkRow) :
  same_doc_hash r r' = same_doc_hash r' r.
Proof.
  unfold same_doc_hash.
  assert (Hs : forall a b, text_eqb a b = text_eqb b a).
  { intros a b. destruct (text_eqb a b) eqn:E.
    - apply text_eqb_eq in E. subst. now rewrite text_eqb_refl.
    - symmetry. apply text_eqb_neq. apply text_eqb_neq in E. congruence. }
  now rewrite (Hs (chunk_doc_id r)), (Hs (chunk_hash r)).
Qed.

Lemma same_doc_hash_refl (r : ChunkRow) : same_doc_hash r r = true.
Proof. unfold same_doc_hash. now rewrite !text_eqb_refl. Qed.

Lemma replaced_lookup (chunk_id : str) (row : ChunkRow)
      (m : gmap (list Z) ChunkRow) (k : str) (r : ChunkRow) :
  replaced chunk_id row m !! k = Some r <->
  (k = chunk_id /\ r = row)
  \/ (k <> chunk_id /\ m !! k = Some r /\ same_doc_hash r row = false).
Proof.
  unfold replaced. destruct (decide (chunk_id = k)) as [->|Hne].
  - rewrite lookup_insert_eq. split.
    + intros [= <-]. now left.
    + intros [[_ ->]|[Hk _]]; [reflexivity|contradiction].
  - rewrite lookup_insert_ne by exact Hne.
    rewrite map_lookup_filter_Some. simpl. split.
    + intros [Hm Hp]. right. split; [congruence|]. split; [exact Hm|].
      now destruct (same_doc_hash r row).
    + intros [[Hk _]|(_ & Hm & Hp)]; [congruence|].
      split; [exact Hm|]. now rewrite Hp.
Qed.

Lemma persist_chunk_row v doc_id text ps pe sec c id hc c' :
  persist_chunk v doc_id text ps pe sec c = (Ok (id, hc), c') ->
  exists h : str,
    sha256_text text = Some h
    /\ sha256_text (versioned_text v text) = Some hc
    /\ id = chunk_id_of doc_id h
    /\ working c'
       = {| documents := documents (working c);
            chunks :=
              replaced id
                {| chunk_doc_id := doc_id; page_start := ps; page_end := pe;
                   section := sec; chunk_hash := h; content_hash := hc;
                   chunk_text := text |}
                (chunks (working c)) |}
    /\ durable c' = working c'.
Proof.
  unfold versioned_text, chunk_id_of.
  destruct c as [d w f]. db_cases; intros [= <- <- <-].
  all: eexists; refine (conj _ (conj _ (conj _ (conj _ _))));
    [| | |unfold replaced; reflexivity|]; simpl; eauto.
Qed.

Lemma replaced_all_app (rows rows' : list (str * ChunkRow))
      (m : gmap (list Z) ChunkRow) :
  replaced_all (rows ++ rows') m = replaced_all rows' (replaced_all rows m).
Proof. apply fold_left_app. Qed.

(** A row of a document under the [chunk_id] of its own digest stays, or is
    replaced by such a row, when such a row is written. *)
Lemma replaced_keeps_chunk_ids (doc_id : str) (id k : str) (r : ChunkRow)
      (m : gmap (list Z) ChunkRow) :
  chunk_doc_id r = doc_id -> id = chunk_id_of doc_id (chunk_hash r) ->
  (exists row : ChunkRow,
      m !! k = Some row /\ chunk_doc_id row = doc_id
      /\ k = chunk_id_of doc_id (chunk_hash row)) ->
  exists row : ChunkRow,
    replaced id r m !! k = Some row /\ chunk_doc_id row = doc_id
    /\ k = chunk_id_of doc_id (chunk_hash row).
Proof.
  intros Hdoc Hid (row & Hk & Hrd & Hrk).
  destruct (decide (k = id)) as [->|Hne].
  - exists r. split; [apply replaced_lookup; now left|now split].
  - exists row. split; [|now split].
    apply replaced_lookup. right. split; [exact Hne|]. split; [exact Hk|].
    destruct (same_doc_hash row r) eqn:Hs; [|reflexivity].
    unfold same_doc_hash in Hs. apply andb_true_iff in Hs as [_ Hh].
    apply text_eqb_eq in Hh. congruence.
Qed.

Lemma replaced_all_chunk_ids (doc_id : str) (rows : list (str * ChunkRow)) :
  Forall (fun kr => chunk_doc_id (snd kr) = doc_id
                    /\ fst kr = chunk_id_of doc_id (chunk_hash (snd kr))) rows ->
  forall (m : gmap (list Z) ChunkRow),
    Forall (fun kr => exists row : ChunkRow,
                replaced_all rows m !! fst kr = Some row
                /\ chunk_doc_id row = doc_id
                /\ fst kr = chunk_id_of doc_id (chunk_hash row)) rows.
Proof.
  induction rows as [|kr rows IH] using rev_ind; intros Hrows m.
  - constructor.
  - apply Forall_app in Hrows as [Hrows Hkr].
    inversion Hkr as [|? ? [Hdoc Hid] _]; subst.
    rewrite replaced_all_app. cbn [replaced_all fold_left].
    apply Forall_app. split.
    + specialize (IH Hrows m). eapply List.Forall_impl; [|exact IH].
      intros kr' Hkr'. now apply replaced_keeps_chunk_ids.
    + constructor; [|constructor].
      exists (snd kr). split; [apply replaced_lookup; now left|now split].
Qed.

Lemma stored_as_chunk_id v doc_id ch kr :
  stored_as v doc_id ch kr ->
  chunk_doc_id (snd kr) = doc_id
  /\ fst kr = chunk_id_of doc_id (chunk_hash (snd kr)).
Proof. intros (h & hc & _ & _ & ->). now split. Qed.

(** Where a run of [persist_chunks] raises: the chunks before the failing
    one were stored, one after the other, and the failing call left the
    committed store alone. *)
Lemma persist_chunks_raise v doc_id cs :
  forall (c c' : Conn) (e : exn),
    persist_chunks v doc_id cs c = (Raise e, c') ->
    exists (done rest : list chunk_input) (failed : chunk_input)
           (rows : list (str * ChunkRow)) (cm : Conn),
      cs = done ++ failed :: rest
      /\ Forall2 (stored_as v doc_id) done rows
      /\ persist_chunks v doc_id done c
         = (Ok (map (fun kr => (fst kr, content_hash (snd kr))) rows), cm)
      /\ persist_chunk v doc_id (ci_text failed) (ci_page_s failed)
                       (ci_page_e failed) (ci_section failed) cm
         = (Raise e, c')
      /\ durable c' = durable cm
      /\ (done <> [] -> durable cm = working cm)
      /\ chunks (working cm) = replaced_all rows (chunks (working c)).
Proof.
  induction cs as [|ch cs IH]; intros c c' e Hrun; [discriminate Hrun|].
  rewrite persist_chunks_cons in Hrun.
  pose proof (persist_chunk_durable v doc_id (ci_text ch) (ci_page_s ch)
                (ci_page_e ch) (ci_section ch) c) as Hstep.
  cbv zeta in Hstep.
  destruct (persist_chunk v doc_id (ci_text ch) (ci_page_s ch) (ci_page_e ch)
              (ci_section ch) c) as [[[id hc]|e1] c1] eqn:Hone.
  - destruct (persist_chunk_row _ _ _ _ _ _ _ _ _ _ Hone)
      as (h & Hh & Hhc & Hid & Hw & Hd).
    destruct (persist_chunks v doc_id cs c1) as [[rs|e2] c2] eqn:Hrest;
      [discriminate Hrun|].
    injection Hrun as <- <-.
    destruct (IH c1 c2 e2 Hrest)
      as (done & rest & failed & rows & cm & Hcs & Hrows & Hdone & Hfail
          & Hdur & Hcm & Hchunks).
    set (row := {| chunk_doc_id := doc_id; page_start := ci_page_s ch;
                   page_end := ci_page_e ch; section := ci_section ch;
                   chunk_hash := h; content_hash := hc;
                   chunk_text := ci_text ch |}) in *.
    exists (ch :: done), rest, failed, ((id, row) :: rows), cm.
    split; [now rewrite Hcs|]. split.
    { constructor; [|exact Hrows]. exists h, hc. subst id. auto. }
    split.
    { rewrite persist_chunks_cons, Hone, Hdone. reflexivity. }
    split; [exact Hfail|]. split; [exact Hdur|]. split.
    { intros _. destruct done as [|d done]; [|apply Hcm; discriminate].
      inversion Hrows; subst. cbn in Hdone. injection Hdone as <-. exact Hd. }
    rewrite Hchunks, Hw. reflexivity.
  - injection Hrun as <- <-. simpl in Hstep. destruct Hstep as [_ Hd].
    exists [], cs, ch, [], c.
    split; [reflexivity|]. split; [constructor|]. split; [reflexivity|].
    split; [exact Hone|]. split; [exact Hd|]. split; [congruence|reflexivity].
Qed.

(** C3, as the code has it.  Every call commits its own write: an
    [upsert_document] that reports a change has committed the row with the
    new [file_hash] when it returns, a [persist_chunk] that returns has
    committed the chunk's row under the returned [chunk_id], and a call that
    raises leaves the committed store as it was before that call.  So when
    [upsert_document] has reported a change and a later [persist_chunk] of
    the same ingestion raises, the ingestion raises and the committed store
    holds the document row with the new [file_hash] and the rows of the
    chunks before the failing one: its [chunks] table is the one from
    before with those rows written by REPLACE in order, and each of their
    [chunk_id]s names a row of this document. *)
Theorem ingestion_commits_each_call :
  forall (v : versions) (doc_id source_path norm_text : str) (mtime : Q)
         (c : Conn),
    (let r := upsert_document doc_id source_path norm_text mtime c in
     match fst r with
     | Ok true =>
       durable (snd r) = working (snd r)
       /\ file_hash <$> documents (durable (snd r)) !! doc_id
          = sha256_text norm_text
     | Ok false => durable (snd r) = durable c /\ working (snd r) = working c
     | Raise _ => durable (snd r) = durable c
     end)
    /\ (forall (text : str) (ps pe : option Z) (sec : option str),
          let r := persist_chunk v doc_id text ps pe sec c in
          match fst r with
          | Ok (chunk_id, hc) =>
            durable (snd r) = working (snd r)
            /\ exists h : str,
                 sha256_text text = Some h
                 /\ chunks (durable (snd r)) !! chunk_id
                    = Some {| chunk_doc_id := doc_id; page_start := ps;
                              page_end := pe; section := sec;
                              chunk_hash := h; content_hash := hc;
                              chunk_text := text |}
          | Raise _ => durable (snd r) = durable c
          end)
    /\ (forall (cs : list chunk_input) (c1 c' : Conn) (e : exn),
          upsert_document doc_id source_path norm_text mtime c = (Ok true, c1) ->
          persist_chunks v doc_id cs c1 = (Raise e, c') ->
          ingest_document v doc_id source_path norm_text mtime cs c = (Raise e, c')
          /\ file_hash <$> documents (durable c') !! doc_id
             = sha256_text norm_text
          /\ exists (done rest : list chunk_input) (failed : chunk_input)
                    (rows : list (str * ChunkRow)) (cm : Conn),
               cs = done ++ failed :: rest
               /\ Forall2 (stored_as v doc_id) done rows
               /\ persist_chunks v doc_id done c1
                  = (Ok (map (fun kr => (fst kr, content_hash (snd kr))) rows),
                     cm)
               /\ persist_chunk v doc_id (ci_text failed) (ci_page_s failed)
                                (ci_page_e failed) (ci_section failed) cm
                  = (Raise e, c')
               /\ chunks (durable c') = replaced_all rows (chunks (durable c1))
               /\ Forall (fun kr => exists row : ChunkRow,
                             chunks (durable c') !! fst kr = Some row
                             /\ chunk_doc_id row = doc_id
                             /\ fst kr = chunk_id_of doc_id (chunk_hash row))
                         rows).
Proof.
  intros v doc_id source_path norm_text mtime c.
  pose proof (upsert_document_durable doc_id source_path norm_text mtime c) as Hu.
  simpl in Hu. split; [|split].
  - simpl. destruct (fst (upsert_document _ _ _ _ c)) as [[|]|]; try tauto.
    destruct Hu as [Hd Hh]. split; [exact Hd|]. now rewrite Hd.
  - intros text ps pe sec. cbv zeta.
    pose proof (persist_chunk_durable v doc_id text ps pe sec c) as Hstep.
    cbv zeta in Hstep.
    destruct (persist_chunk v doc_id text ps pe sec c)
      as [[[id hc]|e] c'] eqn:Hrun; cbn [fst snd] in *; [|tauto].
    apply persist_chunk_row in Hrun as (h & Hh & _ & _ & Hw & Hd).
    split; [exact Hd|]. exists h. split; [exact Hh|].
    rewrite Hd, Hw. cbn [chunks]. apply replaced_lookup. now left.
  - intros cs c1 c' e Hup Hch. rewrite Hup in Hu. simpl in Hu.
    destruct Hu as [Hd Hh]. split; [|split].
    + unfold ingest_document, bind. rewrite Hup, Hch. reflexivity.
    + pose proof (persist_chunks_documents v doc_id cs c1) as Hdocs.
      rewrite Hd in Hdocs. specialize (Hdocs eq_refl). simpl in Hdocs.
      rewrite Hch in Hdocs. simpl in Hdocs. destruct Hdocs as [-> _].
      exact Hh.
    + destruct (persist_chunks_raise v doc_id cs c1 c' e Hch)
        as (done & rest & failed & rows & cm & Hcs & Hrows & Hdone & Hfail
            & Hdur & Hcm & Hchunks).
      assert (Hstore : chunks (durable c')
                       = replaced_all rows (chunks (durable c1))).
      { rewrite Hdur, Hd. destruct done as [|d done].
        - inversion Hrows; subst. cbn in Hdone. injection Hdone as <-.
          now rewrite Hd.
        - rewrite Hcm by discriminate. exact Hchunks. }
      exists done, rest, failed, rows, cm.
      split; [exact Hcs|]. split; [exact Hrows|]. split; [exact Hdone|].
      split; [exact Hfail|]. split; [exact Hstore|].
      rewrite Hstore. apply replaced_all_chunk_ids.
      eapply Forall2_Forall_r; [exact Hrows|].
      apply List.Forall_forall. intros ch _ kr Hs.
      now apply (stored_as_chunk_id v doc_id ch).
Qed.

Lemma ingestion_commits_each_call_witness :
  exists c1 c' : Conn,
    upsert_document sample_doc_id sample_path (lit "abc") 1700000000 failing_conn
    = (Ok true, c1)
    /\ persist_chunks source_versions sample_doc_id two_chunks c1
       = (Raise DatabaseError, c')
    /\ ingest_document source_versions sample_doc_id sample_path (lit "abc")
                       1700000000 two_chunks failing_conn
       = (Raise DatabaseError, c')
    /\ file_hash <$> documents (durable c') !! sample_doc_id
       = sha256_text (lit "abc")
    /\ exists (done rest : list chunk_input) (failed : chunk_input)
              (rows : list (str * ChunkRow)),
         two_chunks = done ++ failed :: rest
         /\ Forall2 (stored_as source_versions sample_doc_id) done rows
         /\ chunks (durable c') = replaced_all rows (chunks (durable c1))
         /\ Forall (fun kr => exists row : ChunkRow,
                       chunks (durable c') !! fst kr = Some row
                       /\ chunk_doc_id row = sample_doc_id
                       /\ fst kr = chunk_id_of sample_doc_id (chunk_hash row))
                   rows.
Proof.
  assert (Hup1 : fst (upsert_document sample_doc_id sample_path (lit "abc")
                        1700000000 failing_conn) = Ok true)
    by (vm_compute; reflexivity).
  apply pair_of_fst in Hup1 as Hup.
  set (c1 := snd (upsert_document sample_doc_id sample_path (lit "abc")
                    1700000000 failing_conn)) in *.
  assert (Hch1 : fst (persist_chunks source_versions sample_doc_id two_chunks c1)
                 = Raise DatabaseError)
    by (vm_compute; reflexivity).
  apply pair_of_fst in Hch1 as Hch.
  set (c' := snd (persist_chunks source_versions sample_doc_id two_chunks c1))
    in *.
  exists c1, c'.
  split; [exact Hup|]. split; [exact Hch|].
  destruct (proj2 (proj2 (ingestion_commits_each_call source_versions
                            sample_doc_id sample_path (lit "abc") 1700000000
                            failing_conn))
                  two_chunks c1 c' DatabaseError Hup Hch)
    as (Hing & Hhash & done & rest & failed & rows & cm & Hcs & Hrows & _ & _
        & Hstore & Hids).
  split; [exact Hing|]. split; [exact Hhash|].
  exists done, rest, failed, rows. auto.
Defined.

(** C3, as the claim has it, fails: the second chunk's write fails, the
    ingestion raises, and the committed store, empty before, holds the
    document with its new hash and the first chunk, not the second. *)
Lemma ingestion_not_atomic :
  fst (ingest_document source_versions sample_doc_id sample_path (lit "abc")
                       1700000000 two_chunks failing_conn)
  = Raise DatabaseError
  /\ file_hash <$> documents (durable (snd (ingest_document source_versions
        sample_doc_id sample_path (lit "abc") 1700000000 two_chunks
        failing_conn))) !! sample_doc_id
     = sha256_text (lit "abc")
  /\ size (chunks (durable (snd (ingest_document source_versions
        sample_doc_id sample_path (lit "abc") 1700000000 two_chunks
        failing_conn)))) = 1%nat
  /\ documents (durable failing_conn) !! sample_doc_id = None
  /\ (ingestion_atomic source_versions sample_doc_id sample_path (lit "abc")
        1700000000 two_chunks failing_conn -> False).
Proof.
  assert (Hfst : fst (ingest_document source_versions sample_doc_id sample_path
                        (lit "abc") 1700000000 two_chunks failing_conn)
                 = Raise DatabaseError) by (vm_compute; reflexivity).
  assert (Hdoc : file_hash <$> documents (durable (snd (ingest_document
                   source_versions sample_doc_id sample_path (lit "abc")
                   1700000000 two_chunks failing_conn))) !! sample_doc_id
                 = sha256_text (lit "abc")) by (vm_compute; reflexivity).
  split; [exact Hfst|]. split; [exact Hdoc|].
  split; [vm_compute; reflexivity|].
  split; [vm_compute; reflexivity|].
  unfold ingestion_atomic. cbv zeta. rewrite Hfst. intros H.
  rewrite H in Hdoc. vm_compute in Hdoc. discriminate Hdoc.
Qed.

(** ** Titles *)

Lemma upsert_document_rows doc_id source_path norm_text mtime c :
  let r := upsert_document doc_id source_path norm_text mtime c in
  (fst r = Ok true ->
   title <$> documents (working (snd r)) !! doc_id = Some None
   /\ title <$> documents (durable (snd r)) !! doc_id = Some None)
  /\ (forall (d : str) (row : DocRow),
        documents (working (snd r)) !! d = Some row ->
        documents (working c) !! d = Some row
        \/ (d = doc_id /\ title row = None)).
Proof.
  destruct c as [dt w f]. db_cases; (split; [try discriminate|auto]).
  all: try (intros _; now rewrite lookup_insert_eq).
  all: intros d row; destruct (decide (doc_id = d)) as [->|Hne];
    [rewrite lookup_insert_eq; intros [= <-]; right; auto
    |rewrite lookup_insert_ne by exact Hne; auto].
Qed.

Lemma _get_text_log ua w file_path (f : fn) :
  In f (snd (_get_text ua w file_path)) -> is_title_fn f = false.
Proof.
  unfold _get_text.
  destruct (endswith file_path (lit ".pdf"));
    [|destruct (endswith file_path (lit ".doc") || endswith file_path (lit ".docx"))];
    cbn [snd In]; intuition (subst; reflexivity).
Qed.

Lemma upsert_document_row_present doc_id source_path norm_text mtime c b :
  fst (upsert_document doc_id source_path norm_text mtime c) = Ok b ->
  is_Some (documents
             (working (snd (upsert_document doc_id source_path norm_text mtime c)))
             !! doc_id).
Proof.
  destruct c as [dt w f]. db_cases; try discriminate; intros _.
  all: try (rewrite lookup_insert_eq; eauto).
  all: destruct (documents w !! doc_id); [eauto|discriminate].
Qed.

(** C10. A row that [upsert_document] writes has no title: after a call
    that reports a change the document's title is NULL, in the working and
    in the committed store, whatever title was stored before, and every
    other row is as it was.  [add_doc] enters no title-extraction function,
    and after it every row of [documents] is either the row from before or
    the row of the new [doc_id] with no title; that row exists when the
    response is 201. *)
Theorem ingestion_leaves_title_absent :
  forall (ul : Z -> list Z) (ua : Z -> bool) (w : World)
         (file : option Upload) (db : Conn)
         (doc_id source_path norm_text : str) (mtime : Q) (c : Conn),
    (let r := upsert_document doc_id source_path norm_text mtime c in
     (fst r = Ok true ->
      title <$> documents (working (snd r)) !! doc_id = Some None
      /\ title <$> documents (durable (snd r)) !! doc_id = Some None)
     /\ (forall (d : str) (row : DocRow),
           documents (working (snd r)) !! d = Some row ->
           documents (working c) !! d = Some row
           \/ (d = doc_id /\ title row = None)))
    /\ (let out := add_doc ul ua w file db in
        (forall f : fn, In f (snd out) -> is_title_fn f = false)
        /\ (forall (d : str) (row : DocRow),
              documents (working (snd (fst out))) !! d = Some row ->
              documents (working db) !! d = Some row
              \/ (d = uuid4 w /\ title row = None))
        /\ (forall resp : Response,
              fst (fst out) = Ok resp -> status resp = 201 ->
              is_Some (documents (working (snd (fst out))) !! uuid4 w))).
Proof.
  intros ul ua w file db doc_id source_path norm_text mtime c.
  split; [apply upsert_document_rows|].
  cbv zeta. unfold add_doc.
  destruct file as [file|];
    [|cbn [fst snd In]; repeat split; try tauto; intros ? [= <-]; discriminate].
  destruct (filename file) as [[|ch name]|];
    try (cbn [fst snd In]; repeat split; try tauto; intros ? [= <-]; discriminate).
  destruct (negb (allowed_file ul (ch :: name)));
    [cbn [fst snd In]; repeat split; try tauto;
     [intros f [<-|[]]; reflexivity|intros ? [= <-]; discriminate]|].
  destruct (makedirs w);
    [|cbn [fst snd In]; repeat split; try tauto; try discriminate;
      intros f [<-|[]]; reflexivity].
  set (folder := match getenv_UPLOAD_FOLDER w with
                 | Some (c0 :: f0) => c0 :: f0
                 | _ => root_path_uploads w
                 end).
  destruct (save file (path_join folder (uuid4 w)));
    [|cbn [fst snd In]; repeat split; try tauto;
      [intros f [<-|[]]; reflexivity|intros ? [= <-]; discriminate]].
  pose proof (_get_text_log ua w (path_join folder (uuid4 w))) as Hlog.
  destruct (_get_text ua w (path_join folder (uuid4 w))) as [[text|e] entered];
    cbn [snd] in Hlog;
    [|cbn [fst snd In]; repeat split; try tauto; try discriminate;
      intros f [<-|Hin]; [reflexivity|now apply Hlog]].
  pose proof (upsert_document_rows (uuid4 w) (path_join folder (uuid4 w)) text
                (inject_Z (now_timestamp w)) db) as Hrows.
  pose proof (upsert_document_row_present (uuid4 w) (path_join folder (uuid4 w))
                text (inject_Z (now_timestamp w)) db) as Hpres.
  cbv zeta in Hrows.
  destruct (upsert_document (uuid4 w) (path_join folder (uuid4 w)) text
              (inject_Z (now_timestamp w)) db) as [[b|e] db'];
    cbn [fst snd] in *.
  - split; [|split].
    + intros f [<-|Hin]; [reflexivity|].
      apply in_app_or in Hin as [Hin|[<-|[]]]; [now apply Hlog|reflexivity].
    + apply Hrows.
    + intros resp _ _. now apply (Hpres b).
  - split; [|split].
    + intros f [<-|Hin]; [reflexivity|].
      apply in_app_or in Hin as [Hin|[<-|[]]]; [now apply Hlog|reflexivity].
    + apply Hrows.
    + discriminate.
Qed.

Lemma ingestion_leaves_title_absent_witness :
  title <$> documents (working titled_conn) !! sample_doc_id
  = Some (Some (lit "Annual Report"))
  /\ fst (upsert_document sample_doc_id sample_path (lit "abc") 1700000000
                          titled_conn) = Ok true
  /\ title <$> documents (working (snd (upsert_document sample_doc_id
        sample_path (lit "abc") 1700000000 titled_conn))) !! sample_doc_id
     = Some None
  /\ status <$> (match fst (fst (add_doc ascii_lower ascii_alnum sample_world
                                   (Some sample_upload) fresh_conn)) with
                 | Ok resp => Some resp
                 | Raise _ => None
                 end) = Some 201
  /\ title <$> documents (working (snd (fst (add_doc ascii_lower ascii_alnum
        sample_world (Some sample_upload) fresh_conn)))) !! sample_doc_id
     = Some None.
Proof.
  pose proof (ingestion_leaves_title_absent ascii_lower ascii_alnum sample_world
                (Some sample_upload) fresh_conn sample_doc_id sample_path
                (lit "abc") 1700000000 titled_conn) as [[Hup _] [_ [Hrows Hpres]]].
  assert (Hchanged : fst (upsert_document sample_doc_id sample_path (lit "abc")
                            1700000000 titled_conn) = Ok true)
    by (vm_compute; reflexivity).
  split; [vm_compute; reflexivity|]. split; [exact Hchanged|].
  split; [exact (proj1 (Hup Hchanged))|].
  assert (Hresp : fst (fst (add_doc ascii_lower ascii_alnum sample_world
                              (Some sample_upload) fresh_conn))
                  = Ok {| status := 201;
                          message := lit "Document uploaded successfully." |})
    by (vm_compute; reflexivity).
  split; [rewrite Hresp; reflexivity|].
  destruct (Hpres _ Hresp eq_refl) as [row Hrow].
  change (uuid4 sample_world) with sample_doc_id in Hrow.
  rewrite Hrow. simpl. f_equal.
  destruct (Hrows _ _ Hrow) as [Hold|[_ Ht]]; [|exact Ht].
  vm_compute in Hold. discriminate.
Defined.

(** ** Normalizer: what the output never holds *)

Lemma sub_dehyphen_cons ua (a : Z) (t : str) :
  sub_dehyphen ua (a :: t) =
  match t with
  | h :: n :: b :: rest =>
    if is_word ua a && (h =? HYPHEN) && (n =? LF) && is_word ua b
    then a :: b :: sub_dehyphen ua rest
    else a :: sub_dehyphen ua t
  | _ => a :: sub_dehyphen ua t
  end.
Proof. reflexivity. Qed.

Lemma sub_dehyphen_In ua (x : Z) :
  forall s : str, In x (sub_dehyphen ua s) -> In x s.
Proof.
  intros s. remember (length s) as n eqn:Hn. revert s Hn.
  induction n as [n IH] using lt_wf_ind. intros s Hn.
  destruct s as [|a t]; [auto|].
  rewrite sub_dehyphen_cons.
  assert (Ht : In x (a :: sub_dehyphen ua t) -> In x (a :: t)).
  { intros [->|Hin]; [now left|right].
    apply (IH (length t)); [simpl in Hn; lia|reflexivity|exact Hin]. }
  destruct t as [|h [|nl [|b rest]]]; try exact Ht.
  destruct (is_word ua a && (h =? HYPHEN) && (nl =? LF) && is_word ua b);
    [|exact Ht].
  intros [->|[->|Hin]]; [now left|simpl; tauto|].
  do 4 right.
  apply (IH (length rest)); [simpl in Hn; lia|reflexivity|exact Hin].
Qed.

Lemma sub_nl3_cons (skip : bool) (c : Z) (t : str) :
  sub_nl3 skip (c :: t) =
  if skip && (c =? LF) then sub_nl3 true t
  else if (c =? LF) && (2 <=? lead_nl t)%nat then LF :: LF :: sub_nl3 true t
  else c :: sub_nl3 false t.
Proof. reflexivity. Qed.

Lemma lead_nl_cons (c : Z) (t : str) :
  lead_nl (c :: t) = if c =? LF then S (lead_nl t) else 0%nat.
Proof. reflexivity. Qed.

Lemma has_run3_cons (c : Z) (t : str) :
  has_run3 (c :: t) = ((c =? LF) && (2 <=? lead_nl t)%nat) || has_run3 t.
Proof. reflexivity. Qed.

Lemma sub_nl3_In (x : Z) :
  forall (s : str) (skip : bool), In x (sub_nl3 skip s) -> In x s.
Proof.
  induction s as [|c t IH]; intros skip; [auto|].
  rewrite sub_nl3_cons.
  destruct (skip && (c =? LF)); [intros H; right; eauto|].
  destruct (Z.eqb_spec c LF) as [->|Hc]; cbn [andb].
  - destruct (2 <=? lead_nl t)%nat.
    + intros [<-|[<-|H]]; [now left|now left|right; eauto].
    + intros [<-|H]; [now left|right; eauto].
  - intros [<-|H]; [now left|right; eauto].
Qed.

Lemma replace_cr_no_cr (s : str) : ~ In CR (replace_cr s).
Proof.
  unfold replace_cr. rewrite in_map_iff. intros (c & Hc & _).
  destruct (Z.eqb_spec c CR); [discriminate|congruence].
Qed.

Lemma lead_nl_sub_true (s : str) : lead_nl (sub_nl3 true s) = 0%nat.
Proof.
  induction s as [|c t IH]; [reflexivity|]. rewrite sub_nl3_cons.
  destruct (Z.eqb_spec c LF) as [->|Hc]; cbn [andb]; [exact IH|].
  rewrite lead_nl_cons. now destruct (Z.eqb_spec c LF).
Qed.

Lemma lead_nl_sub_false (s : str) :
  lead_nl (sub_nl3 false s) = Nat.min 2 (lead_nl s).
Proof.
  induction s as [|c t IH]; [reflexivity|].
  rewrite sub_nl3_cons, lead_nl_cons. cbn [andb].
  destruct (Z.eqb_spec c LF) as [->|Hc]; cbn [andb].
  - destruct (Nat.leb_spec 2 (lead_nl t)) as [Hle|Hlt].
    + rewrite !lead_nl_cons, Z.eqb_refl, lead_nl_sub_true. lia.
    + rewrite lead_nl_cons, Z.eqb_refl, IH. lia.
  - rewrite lead_nl_cons. now destruct (Z.eqb_spec c LF).
Qed.

Lemma has_run3_sub_nl3 (s : str) :
  forall skip : bool, has_run3 (sub_nl3 skip s) = false.
Proof.
  induction s as [|c t IH]; intros skip; [reflexivity|].
  rewrite sub_nl3_cons.
  destruct (skip && (c =? LF)); [apply IH|].
  destruct (Z.eqb_spec c LF) as [->|Hc]; cbn [andb].
  - destruct (Nat.leb_spec 2 (lead_nl t)) as [Hle|Hlt].
    + rewrite !has_run3_cons, lead_nl_cons, Z.eqb_refl, lead_nl_sub_true, IH.
      reflexivity.
    + rewrite has_run3_cons, Z.eqb_refl, lead_nl_sub_false, IH. cbn [andb].
      rewrite orb_false_r. apply Nat.leb_gt. lia.
  - rewrite has_run3_cons, IH. now destruct (Z.eqb_spec c LF).
Qed.

Lemma has_run3_complete (pre post : str) :
  has_run3 (pre ++ [LF; LF; LF] ++ post) = true.
Proof.
  induction pre as [|c pre IH]; [reflexivity|].
  change ((c :: pre) ++ [LF; LF; LF] ++ post)
    with (c :: (pre ++ [LF; LF; LF] ++ post)).
  rewrite has_run3_cons, IH. apply orb_true_r.
Qed.

(** C9. Whatever the input, the output of [_normalize] holds no carriage
    return, none of the four curly quotes U+201C, U+201D, U+2018, U+2019,
    and no three newlines in a row. *)
Theorem normalize_output_invariants :
  forall (ua : Z -> bool) (s : str),
    ~ In CR (_normalize ua s)
    /\ ~ In LDQUO (_normalize ua s)
    /\ ~ In RDQUO (_normalize ua s)
    /\ ~ In LSQUO (_normalize ua s)
    /\ ~ In RSQUO (_normalize ua s)
    /\ (forall pre post : str, _normalize ua s <> pre ++ [LF; LF; LF] ++ post).
Proof.
  intros ua s. unfold _normalize.
  set (t := replace_cr (replace_crlf s)).
  assert (Hchars : forall x, In x (sub_nl3 false (sub_dehyphen ua
                     (sub_squotes (sub_dquotes t)))) ->
                   x <> CR /\ x <> LDQUO /\ x <> RDQUO /\ x <> LSQUO /\ x <> RSQUO).
  { intros x Hin. apply sub_nl3_In, sub_dehyphen_In in Hin.
    unfold sub_squotes, sub_dquotes in Hin.
    apply in_map_iff in Hin as (y & <- & Hy).
    apply in_map_iff in Hy as (z & <- & Hz).
    assert (Hzc : z <> CR)
      by (intros ->; now apply (replace_cr_no_cr (replace_crlf s))).
    unfold CR, LDQUO, RDQUO, LSQUO, RSQUO, DQUOTE, SQUOTE in *.
    destruct (Z.eqb_spec z 8220), (Z.eqb_spec z 8221); simpl;
      destruct (Z.eqb_spec z 8216), (Z.eqb_spec z 8217); simpl;
      try (destruct (Z.eqb_spec 34 8216), (Z.eqb_spec 34 8217); simpl);
      lia. }
  repeat split; try (intros Hin; apply Hchars in Hin; tauto).
  intros pre post Heq.
  pose proof (has_run3_sub_nl3 (sub_dehyphen ua (sub_squotes (sub_dquotes t)))
                false) as Hrun.
  rewrite Heq, has_run3_complete in Hrun. discriminate.
Qed.

(** ** Normalizer: a second pass *)

Lemma replace_crlf_id (s : str) : ~ In CR s -> replace_crlf s = s.
Proof.
  induction s as [|c t IH]; [reflexivity|]. intros Hin.
  assert (Hc : c <> CR) by (intros ->; apply Hin; now left).
  assert (Ht : ~ In CR t) by (intros H; apply Hin; now right).
  destruct t as [|d t']; [reflexivity|].
  change (replace_crlf (c :: d :: t'))
    with (if (c =? CR) && (d =? LF) then LF :: replace_crlf t'
          else c :: replace_crlf (d :: t')).
  destruct (Z.eqb_spec c CR); [contradiction|]. cbn [andb].
  now rewrite IH.
Qed.

Lemma map_id_on (f : Z -> Z) (s : str) :
  (forall c, In c s -> f c = c) -> map f s = s.
Proof.
  induction s as [|c t IH]; [reflexivity|]. intros H. simpl.
  rewrite (H c) by now left. rewrite IH; [reflexivity|].
  intros x Hx. apply H. now right.
Qed.

Lemma has_soft_wrap_cons ua (a : Z) (t : str) :
  has_soft_wrap ua (a :: t) =
  match t with
  | h :: n :: b :: _ =>
    (is_word ua a && (h =? HYPHEN) && (n =? LF) && is_word ua b)
    || has_soft_wrap ua t
  | _ => false
  end.
Proof. reflexivity. Qed.

Lemma sub_dehyphen_id ua (s : str) :
  has_soft_wrap ua s = false -> sub_dehyphen ua s = s.
Proof.
  induction s as [|a t IH]; [reflexivity|].
  rewrite has_soft_wrap_cons, sub_dehyphen_cons.
  destruct t as [|h [|n [|b rest]]].
  - reflexivity.
  - reflexivity.
  - reflexivity.
  - intros H. apply orb_false_iff in H as [-> Ht]. now rewrite IH.
Qed.

Lemma sub_nl3_id (s : str) : has_run3 s = false -> sub_nl3 false s = s.
Proof.
  induction s as [|c t IH]; [reflexivity|].
  rewrite has_run3_cons, sub_nl3_cons. cbn [andb].
  intros H. apply orb_false_iff in H as [-> Ht]. now rewrite IH.
Qed.

Lemma normalize_clean_chars ua (s : str) (x : Z) :
  In x (_normalize ua s) ->
  x <> CR /\ x <> LDQUO /\ x <> RDQUO /\ x <> LSQUO /\ x <> RSQUO.
Proof.
  unfold _normalize. intros Hin.
  apply sub_nl3_In, sub_dehyphen_In in Hin.
  unfold sub_squotes, sub_dquotes in Hin.
  apply in_map_iff in Hin as (y & <- & Hy).
  apply in_map_iff in Hy as (z & <- & Hz).
  assert (Hzc : z <> CR)
    by (intros ->; now apply (replace_cr_no_cr (replace_crlf s))).
  unfold CR, LDQUO, RDQUO, LSQUO, RSQUO, DQUOTE, SQUOTE in *.
  destruct (Z.eqb_spec z 8220), (Z.eqb_spec z 8221); simpl;
    destruct (Z.eqb_spec z 8216), (Z.eqb_spec z 8217); simpl;
    try (destruct (Z.eqb_spec 34 8216), (Z.eqb_spec 34 8217); simpl);
    lia.
Qed.

(** A text with no carriage return, no curly quote, no soft wrap and no
    three newlines in a row is left as it is. *)
Lemma normalize_fixed ua (n : str) :
  ~ In CR n -> ~ In LDQUO n -> ~ In RDQUO n -> ~ In LSQUO n -> ~ In RSQUO n ->
  has_soft_wrap ua n = false -> has_run3 n = false ->
  _normalize ua n = n.
Proof.
  intros Hcr Hld Hrd Hls Hrs Hwrap Hrun.
  unfold _normalize. cbv zeta.
  rewrite (replace_crlf_id n Hcr).
  assert (H1 : replace_cr n = n).
  { apply map_id_on. intros c Hc. destruct (Z.eqb_spec c CR); congruence. }
  rewrite H1.
  assert (H2 : sub_dquotes n = n).
  { apply map_id_on. intros c Hc.
    destruct (Z.eqb_spec c LDQUO), (Z.eqb_spec c RDQUO); simpl; congruence. }
  rewrite H2.
  assert (H3 : sub_squotes n = n).
  { apply map_id_on. intros c Hc.
    destruct (Z.eqb_spec c LSQUO), (Z.eqb_spec c RSQUO); simpl; congruence. }
  rewrite H3, (sub_dehyphen_id ua n Hwrap). now apply sub_nl3_id.
Qed.

(** Short of a soft wrap left over by the first pass, a second pass changes
    nothing. *)
Lemma normalize_idempotent_without_leftover ua (s : str) :
  has_soft_wrap ua (_normalize ua s) = false ->
  _normalize ua (_normalize ua s) = _normalize ua s.
Proof.
  intros Hwrap.
  assert (Hrun : has_run3 (_normalize ua s) = false)
    by (unfold _normalize; apply has_run3_sub_nl3).
  apply normalize_fixed; try assumption;
    intros Hin; apply normalize_clean_chars in Hin; tauto.
Qed.

(** Rules 1 and 4 as the specification words them. *)
Lemma replace_cr_crlf_unifies (s : str) :
  replace_cr (replace_crlf s) = unify_line_endings s.
Proof.
  remember (length s) as n eqn:Hn. revert s Hn.
  induction n as [n IH] using lt_wf_ind. intros s Hn.
  destruct s as [|c [|d t]]; [reflexivity| |].
  - simpl. now destruct (c =? CR).
  - change (replace_crlf (c :: d :: t))
      with (if (c =? CR) && (d =? LF) then LF :: replace_crlf t
            else c :: replace_crlf (d :: t)).
    change (unify_line_endings (c :: d :: t))
      with (if c =? CR then
              if d =? LF then LF :: unify_line_endings t
              else LF :: unify_line_endings (d :: t)
            else c :: unify_line_endings (d :: t)).
    assert (H1 : replace_cr (replace_crlf t) = unify_line_endings t)
      by (apply (IH (length t)); [simpl in Hn; lia|reflexivity]).
    assert (H2 : replace_cr (replace_crlf (d :: t)) = unify_line_endings (d :: t))
      by (apply (IH (length (d :: t))); [simpl in Hn; simpl; lia|reflexivity]).
    destruct (Z.eqb_spec c CR) as [->|Hc]; cbn [andb].
    + destruct (d =? LF).
      * unfold replace_cr in *. cbn [map]. now rewrite H1.
      * unfold replace_cr in *. cbn [map]. rewrite H2. reflexivity.
    + unfold replace_cr in *. cbn [map]. rewrite H2.
      now destruct (Z.eqb_spec c CR).
Qed.

Lemma sub_nl3_skip (s : str) :
  sub_nl3 true s = sub_nl3 false (lstrip_by (fun c => c =? LF) s).
Proof.
  induction s as [|c t IH]; [reflexivity|].
  rewrite sub_nl3_cons. cbn [andb lstrip_by].
  destruct (Z.eqb_spec c LF) as [->|Hc]; [exact IH|].
  rewrite sub_nl3_cons. cbn [andb].
  now destruct (Z.eqb_spec c LF).
Qed.

Lemma sub_nl3_run (rest : str) :
  sub_nl3 false (LF :: LF :: LF :: rest)
  = LF :: LF :: sub_nl3 false (lstrip_by (fun c => c =? LF) rest).
Proof.
  rewrite sub_nl3_cons. cbn [andb]. rewrite Z.eqb_refl. cbn [andb].
  rewrite !lead_nl_cons, Z.eqb_refl. cbn [Nat.leb].
  rewrite sub_nl3_skip. cbn [lstrip_by]. now rewrite Z.eqb_refl.
Qed.

(** C2 at its failing input.  On a-, newline, b-, newline, c the first
    pass joins a and b and leaves the second soft wrap, whose first word
    character the first match consumed; the second pass removes it.  The
    two passes differ: [_normalize] is not idempotent there. *)
Theorem normalize_second_pass_differs :
  forall ua : Z -> bool,
    _normalize ua overlap_sample = lit "ab-" ++ [LF] ++ lit "c"
    /\ _normalize ua (_normalize ua overlap_sample) = lit "abc"
    /\ _normalize ua (_normalize ua overlap_sample) <> _normalize ua overlap_sample.
Proof.
  intros ua.
  assert (H1 : _normalize ua overlap_sample = lit "ab-" ++ [LF] ++ lit "c")
    by (vm_compute; reflexivity).
  assert (H2 : _normalize ua (lit "ab-" ++ [LF] ++ lit "c") = lit "abc")
    by (vm_compute; reflexivity).
  rewrite H1, H2. repeat split. discriminate.
Qed.

(** C7 at its failing input.  Rule 3 does not collapse every occurrence of
    word character, hyphen, newline, word character: on a-, newline, b-,
    newline, c the substitution gives ab-, newline, c, and the output of
    [_normalize] still holds an occurrence. *)
Theorem dehyphen_leaves_overlapping_wrap :
  forall ua : Z -> bool,
    sub_dehyphen ua overlap_sample = lit "ab-" ++ [LF] ++ lit "c"
    /\ has_soft_wrap ua (_normalize ua overlap_sample) = true.
Proof.
  intros ua. split; vm_compute; reflexivity.
Qed.

(** ** Extractor *)

Lemma insert_block_perm (b : Block) (l : list Block) :
  Permutation (insert_block b l) (b :: l).
Proof.
  induction l as [|b' l IH]; simpl; [reflexivity|].
  destruct (key_leb (sort_key b) (sort_key b')); [reflexivity|].
  rewrite IH. apply perm_swap.
Qed.

Lemma sort_blocks_perm (l : list Block) : Permutation (sort_blocks l) l.
Proof.
  induction l as [|b l IH]; simpl; [reflexivity|].
  rewrite insert_block_perm. now constructor.
Qed.

Lemma key_leb_total (k k' : Z * Z) : key_leb k k' = false -> key_leb k' k = true.
Proof.
  unfold key_leb. destruct k as [y x], k' as [y' x']; simpl.
  destruct (Z.ltb_spec y y'), (Z.eqb_spec y y'), (Z.leb_spec x x'),
           (Z.ltb_spec y' y), (Z.eqb_spec y' y), (Z.leb_spec x' x);
    simpl; try lia; congruence.
Qed.

Lemma insert_block_sorted (b : Block) (l : list Block) :
  Sorted block_le l -> Sorted block_le (insert_block b l).
Proof.
  induction 1 as [|b' l Hs IH Hhd]; simpl; [repeat constructor|].
  destruct (key_leb (sort_key b) (sort_key b')) eqn:E.
  - constructor; [now constructor|]. constructor. exact E.
  - constructor; [exact IH|].
    destruct l as [|b'' l]; simpl.
    + constructor. now apply key_leb_total.
    + destruct (key_leb (sort_key b) (sort_key b'')).
      * constructor. now apply key_leb_total.
      * constructor. now inversion Hhd.
Qed.

Lemma sort_blocks_sorted (l : list Block) : Sorted block_le (sort_blocks l).
Proof.
  induction l as [|b l IH]; simpl; [constructor|].
  now apply insert_block_sorted.
Qed.

Lemma key_leb_same (k k' : Z * Z) :
  fst k = fst k' -> snd k = snd k' -> key_leb k k' = true.
Proof.
  unfold key_leb. intros -> ->. rewrite Z.eqb_refl, Z.leb_refl.
  apply orb_true_r.
Qed.

Lemma insert_block_at_key (k : Z * Z) (b : Block) (l : list Block) :
  List.filter (at_key k) (insert_block b l) = List.filter (at_key k) (b :: l).
Proof.
  induction l as [|b' l IH]; [reflexivity|].
  cbn [insert_block].
  destruct (key_leb (sort_key b) (sort_key b')) eqn:E; [reflexivity|].
  cbn [List.filter] in *. rewrite IH.
  destruct (at_key k b) eqn:Hb, (at_key k b') eqn:Hb'; try reflexivity.
  exfalso. unfold at_key in Hb, Hb'.
  apply andb_true_iff in Hb as [H1 H2]. apply andb_true_iff in Hb' as [H3 H4].
  apply Z.eqb_eq in H1, H2, H3, H4.
  rewrite key_leb_same in E by congruence. discriminate E.
Qed.

(** The sort is stable: blocks at one rounded position keep the order in
    which the page lists them. *)
Lemma sort_blocks_stable (k : Z * Z) (l : list Block) :
  List.filter (at_key k) (sort_blocks l) = List.filter (at_key k) l.
Proof.
  induction l as [|b l IH]; [reflexivity|].
  cbn [sort_blocks]. rewrite insert_block_at_key.
  cbn [List.filter]. now rewrite IH.
Qed.

Lemma page_step_text st i p :
  page_step st (i, p) =
  (fst st ++ [page_text p],
   if needs_ocr p then snd st ++ [(i, 2%Q)] else snd st).
Proof.
  destruct st as [out log]. unfold page_step, page_text, needs_ocr, _ocr_page.
  now destruct (nonempty (strip (_blocks_text p))).
Qed.

Lemma extract_loop (doc : list Page) :
  forall (k : nat) (out : list str) (log : list (nat * Q)),
    fold_left page_step (combine (seq k (length doc)) doc) (out, log)
    = (out ++ map page_text doc, log ++ ocr_calls_from k doc).
Proof.
  induction doc as [|p doc IH]; intros k out log.
  - simpl. now rewrite !app_nil_r.
  - cbn [length seq combine fold_left map ocr_calls_from].
    rewrite page_step_text, IH. cbn [fst snd].
    rewrite <- app_assoc. simpl.
    destruct (needs_ocr p); [rewrite <- app_assoc|]; reflexivity.
Qed.

(** C4, as the code has it.  [extract_pdf_text] returns the Normalizer
    applied once to the page texts joined, in page order, with newline
    newline form-feed newline newline, the joined text being stripped of
    leading and trailing white space first.  A page's text is its block
    text, stripped, or, when that is empty, the stripped text the recognizer
    reads at zoom 2; the recognizer is called for exactly the pages whose
    block text is empty.  The block text joins with a blank line the
    stripped, non-empty texts of the blocks in the stable order of their
    rounded top and left edges: the sorted blocks are the page's blocks,
    in ascending order of the rounded top and then left edge, and those at
    one rounded position keep the order in which the page lists them. *)
Theorem extract_pdf_text_pages :
  forall (ua : Z -> bool) (doc : list Page),
    extract_pdf_text ua doc
    = (_normalize ua (strip (join page_separator (map page_text doc))),
       ocr_calls_from 0 doc)
    /\ (forall (i : nat) (z : Q),
          In (i, z) (ocr_calls_from 0 doc) <->
          z = 2%Q /\ exists p, nth_error doc i = Some p /\ needs_ocr p = true)
    /\ (forall p : Page,
          Permutation (sort_blocks (extractBLOCKS p)) (extractBLOCKS p)
          /\ Sorted block_le (sort_blocks (extractBLOCKS p))
          /\ (forall k : Z * Z,
                List.filter (at_key k) (sort_blocks (extractBLOCKS p))
                = List.filter (at_key k) (extractBLOCKS p))
          /\ _blocks_text p
             = join [LF; LF]
                 (List.filter nonempty
                    (map (fun b => strip (or_empty (b4 b)))
                         (sort_blocks (extractBLOCKS p))))).
Proof.
  intros ua doc. split; [|split].
  - unfold extract_pdf_text, enumerate. rewrite extract_loop. reflexivity.
  - assert (Hgen : forall k i z,
      In (i, z) (ocr_calls_from k doc) <->
      z = 2%Q /\ exists p, (k <= i)%nat /\ nth_error doc (i - k) = Some p
                           /\ needs_ocr p = true).
    { induction doc as [|p doc IH]; intros k i z.
      - simpl. split; [tauto|]. intros (_ & q & _ & Hq & _).
        now destruct (i - k)%nat.
      - cbn [ocr_calls_from].
        assert (Hrest : In (i, z) (ocr_calls_from (S k) doc) <->
                        z = 2%Q /\ exists q, (S k <= i)%nat
                          /\ nth_error (p :: doc) (i - k) = Some q
                          /\ needs_ocr q = true).
        { rewrite IH. split; intros (Hz & q & Hle & Hq & Ho);
            (split; [exact Hz|]); exists q; (split; [exact Hle|]);
            (split; [|exact Ho]).
          - replace (i - k)%nat with (S (i - S k)) by lia. exact Hq.
          - replace (i - k)%nat with (S (i - S k)) in Hq by lia. exact Hq. }
        destruct (needs_ocr p) eqn:Hp.
        + cbn [In]. rewrite Hrest. split.
          * intros [[= <- <-]|(Hz & q & Hle & Hq & Ho)].
            -- split; [reflexivity|]. exists p. rewrite Nat.sub_diag. auto.
            -- split; [exact Hz|]. exists q. split; [lia|auto].
          * intros (Hz & q & Hle & Hq & Ho).
            destruct (Nat.eq_dec i k) as [->|Hne]; [left; now subst|].
            right. split; [exact Hz|]. exists q. split; [lia|auto].
        + rewrite Hrest. split; intros (Hz & q & Hle & Hq & Ho);
            (split; [exact Hz|]); exists q.
          * split; [lia|auto].
          * destruct (Nat.eq_dec i k) as [->|Hne]; [|split; [lia|auto]].
            rewrite Nat.sub_diag in Hq. simpl in Hq. congruence. }
    intros i z. rewrite Hgen. rewrite Nat.sub_0_r.
    split; intros (Hz & p & H); (split; [exact Hz|]); exists p;
      [tauto|split; [lia|tauto]].
  - intros p. split; [apply sort_blocks_perm|]. split; [apply sort_blocks_sorted|].
    split; [intros k; apply sort_blocks_stable|].
    unfold _blocks_text. cbv zeta. f_equal.
    generalize (sort_blocks (extractBLOCKS p)) as l.
    induction l as [|b l IH]; [reflexivity|]. simpl.
    destruct (nonempty (strip (or_empty (b4 b)))); simpl; [|exact IH].
    now f_equal.
Qed.

Example blocks_text_reading_order :
  _blocks_text
    {| extractBLOCKS :=
         [ {| b0 := 300; b1 := 100.004; b4 := Some (lit "right ") |};
           {| b0 := 72; b1 := 400; b4 := Some (lit "below") |};
           {| b0 := 10; b1 := 200; b4 := Some [SPACE; LF] |};
           {| b0 := 72; b1 := 100; b4 := Some (lit " left") |} ];
       recognize := fun _ => [] |}
  = lit "left" ++ [LF; LF] ++ lit "right" ++ [LF; LF] ++ lit "below".
Proof. vm_compute. reflexivity. Qed.

Example blocks_text_keeps_ties :
  sort_key (nth 0 (extractBLOCKS tied_page) {| b0 := 0; b1 := 0; b4 := None |})
  = sort_key (nth 1 (extractBLOCKS tied_page) {| b0 := 0; b1 := 0; b4 := None |})
  /\ _blocks_text tied_page
     = lit "top" ++ [LF; LF] ++ lit "first" ++ [LF; LF] ++ lit "second".
Proof. vm_compute. split; reflexivity. Qed.

Example round2_ties_to_even :
  round2 0.125 = 12 /\ round2 0.375 = 38 /\ round2 (-0.125) = -12
  /\ round2 2.5 = 250.
Proof. vm_compute. repeat split. Qed.

(** C4, as the claim has it, fails: with a blank first page on which the
    recognizer reads nothing and a second page reading Hi, the joined text
    starts with the page separator, and [extract_pdf_text] strips it. *)
Lemma extract_pdf_text_strips_joined_text :
  fst (extract_pdf_text ascii_alnum blank_then_text) = lit "Hi"
  /\ joined_page_texts ascii_alnum blank_then_text = page_separator ++ lit "Hi"
  /\ snd (extract_pdf_text ascii_alnum blank_then_text) = [(0%nat, 2%Q)]
  /\ fst (extract_pdf_text ascii_alnum blank_then_text)
     <> joined_page_texts ascii_alnum blank_then_text.
Proof.
  assert (H1 : fst (extract_pdf_text ascii_alnum blank_then_text) = lit "Hi")
    by (vm_compute; reflexivity).
  assert (H2 : joined_page_texts ascii_alnum blank_then_text
               = page_separator ++ lit "Hi") by (vm_compute; reflexivity).
  split; [exact H1|]. split; [exact H2|]. split; [vm_compute; reflexivity|].
  rewrite H1, H2. discriminate.
Qed.

(** ** Title resolution *)






Lemma lower_ascii_length ul (s : str) :
  Forall (fun c => 0 <= c < 128) s -> length (lower ul s) = length s.
Proof.
  induction 1 as [|c s Hc _ IH]; [reflexivity|].
  unfold lower in *. simpl. rewrite length_app, IH. unfold lower_char.
  destruct (Z.ltb_spec c 128); [|lia].
  now destruct ((65 <=? c) && (c <=? 90)).
Qed.






Lemma response_text_content (resp : completion) :
  or_empty match resp with
           | NoChoices => Some []
           | Message c => c
           end = response_text resp.
Proof. now destruct resp. Qed.

Lemma response_title_line ul (resp : completion) :
  response_title ul resp =
  if negb (nonempty (strip (response_text resp))) then Unknown
  else if negb (nonempty (title_line resp))
          || text_eqb (lower ul (title_line resp)) (lit "unknown")
          || (200 <? length (title_line resp))%nat
       then Unknown
       else title_line resp.
Proof.
  unfold response_title, title_line. now rewrite response_text_content.
Qed.


Lemma docx_title_outcomes ul env doc :
  _extract_docx_title ul env doc = Ok Unknown
  \/ exists (prompt : str) (resp : completion),
       has_key env = true
       /\ chat_create env prompt = Ok resp
       /\ _extract_docx_title ul env doc = Ok (response_title ul resp).
Proof.
  unfold _extract_docx_title, rbind, try_except.
  destruct doc as [paras|e]; [|now left].
  destruct (gather paras [] 0) as [|sn sns]; [now left|].
  set (snippet := strip (firstn char_limit (join [LF] (sn :: sns)))).
  destruct (negb (nonempty snippet)); [now left|].
  destruct (has_key env); [|now left]. cbn [negb].
  destruct (OpenAI env); [|now left].
  destruct (chat_create env (docx_prompt snippet)) as [resp|e] eqn:E;
    [|now left].
  right. exists (docx_prompt snippet), resp. auto.
Qed.

Lemma pdf_title_outcomes ul env file :
  _extract_pdf_title ul env file = Ok Unknown
  \/ (exists (prompt : str) (resp : completion),
        has_key env = true
        /\ chat_create env prompt = Ok resp
        /\ _extract_pdf_title ul env file = Ok (response_title ul resp))
  \/ (exists e : exn,
        _extract_pdf_title ul env file = Raise e
        /\ (~ pdf_readable file \/ OpenAI env = Raise e)).
Proof.
  unfold _extract_pdf_title, rbind, try_except.
  destruct (stream_tell file) as [pos|e] eqn:Et;
    [|right; right; exists e; split; [reflexivity|left];
      intros (? & ? & ? & ? & _); congruence].
  destruct (file_read file) as [data|e] eqn:Er;
    [|right; right; exists e; split; [reflexivity|left];
      intros (? & ? & ? & _ & ? & _); congruence].
  destruct data as [|d0 data]; [now left|].
  destruct (fitz_open_stream file) as [pdf|e] eqn:Eo;
    [|right; right; exists e; split; [reflexivity|left];
      intros (? & ? & ? & _ & _ & ?); congruence].
  destruct pdf as [|page pdf]; [now left|].
  destruct (negb (nonempty (strip (or_empty page)))); [now left|].
  destruct (has_key env); [|now left]. cbn [negb].
  destruct (OpenAI env) as [u|e] eqn:Ec;
    [|right; right; exists e; auto].
  destruct (chat_create env _) as [resp|e] eqn:E; [|now left].
  right; left. eauto.
Qed.




(** * Further properties of the code *)

(** ** Normalizer: lengths and fixed points *)

Lemma replace_crlf_length (s : str) : (length (replace_crlf s) <= length s)%nat.
Proof.
  remember (length s) as n eqn:Hn. revert s Hn.
  induction n as [n IH] using lt_wf_ind. intros s Hn. subst n.
  destruct s as [|c [|d t]]; [simpl; lia|simpl; lia|].
  change (replace_crlf (c :: d :: t))
    with (if (c =? CR) && (d =? LF) then LF :: replace_crlf t
          else c :: replace_crlf (d :: t)).
  assert (H1 : (length (replace_crlf t) <= length t)%nat)
    by (apply (IH (length t)); [simpl; lia|reflexivity]).
  assert (H2 : (length (replace_crlf (d :: t)) <= length (d :: t))%nat)
    by (apply (IH (length (d :: t))); [simpl; lia|reflexivity]).
  destruct ((c =? CR) && (d =? LF)); simpl in *; lia.
Qed.

Lemma sub_dehyphen_length ua (s : str) :
  (length (sub_dehyphen ua s) <= length s)%nat.
Proof.
  remember (length s) as n eqn:Hn. revert s Hn.
  induction n as [n IH] using lt_wf_ind. intros s Hn. subst n.
  destruct s as [|a t]; [simpl; lia|].
  rewrite sub_dehyphen_cons.
  assert (Ht : (length (sub_dehyphen ua t) <= length t)%nat)
    by (apply (IH (length t)); [simpl; lia|reflexivity]).
  destruct t as [|h [|nl [|b rest]]]; try (simpl in *; lia).
  assert (Hr : (length (sub_dehyphen ua rest) <= length rest)%nat)
    by (apply (IH (length rest)); [simpl; lia|reflexivity]).
  destruct (is_word ua a && (h =? HYPHEN) && (nl =? LF) && is_word ua b);
    simpl in *; lia.
Qed.

Lemma sub_dehyphen_shrinks ua (s : str) :
  has_soft_wrap ua s = true ->
  (length (sub_dehyphen ua s) < length s)%nat.
Proof.
  induction s as [|a t IH]; [discriminate|].
  rewrite has_soft_wrap_cons, sub_dehyphen_cons.
  destruct t as [|h [|nl [|b rest]]]; try discriminate.
  destruct (is_word ua a && (h =? HYPHEN) && (nl =? LF) && is_word ua b).
  - intros _. pose proof (sub_dehyphen_length ua rest). simpl. lia.
  - cbn [orb]. intros H. specialize (IH H). simpl in *. lia.
Qed.

Lemma sub_nl3_length (s : str) :
  (length (sub_nl3 true s) + lead_nl s <= length s)%nat
  /\ (length (sub_nl3 false s) <= length s)%nat.
Proof.
  induction s as [|c t [IH1 IH2]]; [simpl; lia|].
  rewrite !sub_nl3_cons, lead_nl_cons. cbn [andb].
  destruct (Z.eqb_spec c LF) as [->|Hc]; cbn [andb length].
  - split; [lia|].
    destruct (Nat.leb_spec 2 (lead_nl t)); cbn [length]; lia.
  - split; lia.
Qed.

(** X1.  [_normalize] never makes a text longer. *)
Theorem normalize_never_lengthens :
  forall (ua : Z -> bool) (s : str),
    (length (_normalize ua s) <= length s)%nat.
Proof.
  intros ua s. unfold _normalize. cbv zeta.
  pose proof (replace_crlf_length s) as H1.
  pose proof (sub_dehyphen_length ua
                (sub_squotes (sub_dquotes (replace_cr (replace_crlf s))))) as H2.
  pose proof (proj2 (sub_nl3_length (sub_dehyphen ua
                (sub_squotes (sub_dquotes (replace_cr (replace_crlf s))))))) as H3.
  unfold sub_squotes, sub_dquotes, replace_cr in *.
  rewrite !length_map in H2. lia.
Qed.

Lemma normalize_shrinks_soft_wrap ua (n : str) :
  ~ In CR n -> ~ In LDQUO n -> ~ In RDQUO n -> ~ In LSQUO n -> ~ In RSQUO n ->
  has_soft_wrap ua n = true ->
  (length (_normalize ua n) < length n)%nat.
Proof.
  intros Hcr Hld Hrd Hls Hrs Hwrap.
  unfold _normalize. cbv zeta.
  rewrite (replace_crlf_id n Hcr).
  assert (H1 : replace_cr n = n).
  { apply map_id_on. intros c Hc. destruct (Z.eqb_spec c CR); congruence. }
  rewrite H1.
  assert (H2 : sub_dquotes n = n).
  { apply map_id_on. intros c Hc.
    destruct (Z.eqb_spec c LDQUO), (Z.eqb_spec c RDQUO); simpl; congruence. }
  rewrite H2.
  assert (H3 : sub_squotes n = n).
  { apply map_id_on. intros c Hc.
    destruct (Z.eqb_spec c LSQUO), (Z.eqb_spec c RSQUO); simpl; congruence. }
  rewrite H3.
  pose proof (sub_dehyphen_shrinks ua n Hwrap).
  pose proof (proj2 (sub_nl3_length (sub_dehyphen ua n))). lia.
Qed.

(** X2.  The texts [_normalize] leaves as they are are exactly those with no
    carriage return, no curly quote, no soft wrap and no three newlines in
    a row. *)
Theorem normalize_fixed_points :
  forall (ua : Z -> bool) (n : str),
    _normalize ua n = n <-> clean_text ua n.
Proof.
  intros ua n. unfold clean_text. split.
  - intros Hfix.
    assert (Hch : forall x, In x n ->
              x <> CR /\ x <> LDQUO /\ x <> RDQUO /\ x <> LSQUO /\ x <> RSQUO)
      by (intros x Hx; rewrite <- Hfix in Hx;
          now apply normalize_clean_chars in Hx).
    assert (Hrun : has_run3 n = false)
      by (rewrite <- Hfix; unfold _normalize; apply has_run3_sub_nl3).
    repeat split; try (intros Hin; apply Hch in Hin; tauto); try exact Hrun.
    destruct (has_soft_wrap ua n) eqn:Hw; [|reflexivity].
    assert (Hlt : (length (_normalize ua n) < length n)%nat)
      by (apply normalize_shrinks_soft_wrap; try assumption;
          intros Hin; apply Hch in Hin; tauto).
    rewrite Hfix in Hlt. lia.
  - intros (Hcr & Hld & Hrd & Hls & Hrs & Hw & Hrun).
    now apply normalize_fixed.
Qed.

(** X3.  A second pass of [_normalize] changes the result of the first exactly
    when the first left a soft wrap behind. *)
Theorem normalize_idempotent_iff :
  forall (ua : Z -> bool) (s : str),
    _normalize ua (_normalize ua s) = _normalize ua s
    <-> has_soft_wrap ua (_normalize ua s) = false.
Proof.
  intros ua s. split.
  - intros Hfix.
    destruct (has_soft_wrap ua (_normalize ua s)) eqn:Hw; [|reflexivity].
    assert (Hlt : (length (_normalize ua (_normalize ua s))
                   < length (_normalize ua s))%nat)
      by (apply normalize_shrinks_soft_wrap; try assumption;
          intros Hin; apply normalize_clean_chars in Hin; tauto).
    rewrite Hfix in Hlt. lia.
  - apply normalize_idempotent_without_leftover.
Qed.

(** ** Store: the chunks table *)

Lemma persist_chunk_tables v doc_id text ps pe sec c :
  let r := persist_chunk v doc_id text ps pe sec c in
  working (snd r) = working c
  \/ exists (chunk_id : str) (row : ChunkRow),
       chunk_doc_id row = doc_id
       /\ sha256_text text = Some (chunk_hash row)
       /\ chunk_id = doc_id ++ lit ":" ++ firstn 12 (chunk_hash row)
       /\ working (snd r)
          = {| documents := documents (working c);
               chunks := replaced chunk_id row (chunks (working c)) |}.
Proof.
  destruct c as [d w f]. db_cases; auto.
  all: right; do 2 eexists;
    refine (conj _ (conj _ (conj _ _)));
    [| | |unfold replaced; reflexivity]; simpl; eauto.
Qed.

Lemma replaced_twice (chunk_id : str) (row : ChunkRow)
      (m : gmap (list Z) ChunkRow) :
  replaced chunk_id row (replaced chunk_id row m) = replaced chunk_id row m.
Proof.
  apply map_eq. intros k. apply option_eq. intros r.
  rewrite !replaced_lookup. split.
  - intros [H|(Hk & [[Hk' _]|H] & Hs)]; [now left|contradiction|now right].
  - intros [H|(Hk & Hm & Hs)]; [now left|].
    right. split; [exact Hk|]. split; [|exact Hs]. right. auto.
Qed.

Lemma persist_chunk_ok v doc_id text ps pe sec c id ch c' :
  persist_chunk v doc_id text ps pe sec c = (Ok (id, ch), c') ->
  exists row : ChunkRow,
    chunk_doc_id row = doc_id
    /\ sha256_text text = Some (chunk_hash row)
    /\ id = chunk_id_of doc_id (chunk_hash row)
    /\ content_hash row = ch
    /\ sha256_text (versioned_text v text) = Some ch
    /\ working c'
       = {| documents := documents (working c);
            chunks := replaced id row (chunks (working c)) |}
    /\ durable c' = working c'.
Proof.
  unfold versioned_text, chunk_id_of.
  destruct c as [d w f]. db_cases; intros [= <- <- <-].
  all: eexists; refine (conj _ (conj _ (conj _ (conj _ (conj _ (conj _ _))))));
    [| | | | |unfold replaced; reflexivity|]; simpl; eauto.
Qed.

(** X4.  [persist_chunk] keeps the unique index over [(doc_id, chunk_hash)]:
    whatever the outcome of the call, a [chunks] table in which no two rows
    share that pair is left in that state; and after a call that returns,
    the row of the chunk is under the returned [chunk_id], and it is the
    only row of the document with the digest of the text. *)
Theorem persist_chunk_keeps_unique_index :
  forall (v : versions) (doc_id text : str) (ps pe : option Z)
         (sec : option str) (c : Conn),
    (unique_doc_hash (chunks (working c)) ->
     unique_doc_hash
       (chunks (working (snd (persist_chunk v doc_id text ps pe sec c)))))
    /\ (forall (id ch : str) (c' : Conn),
          persist_chunk v doc_id text ps pe sec c = (Ok (id, ch), c') ->
          (exists row : ChunkRow,
              chunks (working c') !! id = Some row
              /\ chunk_doc_id row = doc_id
              /\ sha256_text text = Some (chunk_hash row)
              /\ chunk_text row = text)
          /\ (forall (k : str) (r : ChunkRow),
                chunks (working c') !! k = Some r ->
                chunk_doc_id r = doc_id ->
                sha256_text text = Some (chunk_hash r) ->
                k = id)).
Proof.
  intros v doc_id text ps pe sec c. split.
  - destruct (persist_chunk_tables v doc_id text ps pe sec c)
      as [Hsame|(id & row & Hdoc & Hh & Hid & Hw)].
    + now rewrite Hsame.
    + rewrite Hw. simpl.
      intros Huniq k1 k2 r1 r2 H1 H2 Hs.
      apply replaced_lookup in H1 as [[-> ->]|(Hk1 & Hm1 & Hs1)];
        apply replaced_lookup in H2 as [[-> ->]|(Hk2 & Hm2 & Hs2)].
      * reflexivity.
      * rewrite same_doc_hash_sym in Hs. congruence.
      * congruence.
      * now apply (Huniq k1 k2 r1 r2).
  - intros id ch c' Hrun.
    destruct (persist_chunk_row _ _ _ _ _ _ _ _ _ _ Hrun)
      as (h & Hh & _ & Hid & Hw & _).
    rewrite Hw. cbn [chunks]. split.
    + eexists. split; [apply replaced_lookup; now left|]. simpl. auto.
    + intros k r Hk Hrd Hrh.
      apply replaced_lookup in Hk as [[-> _]|(_ & _ & Hs)]; [reflexivity|].
      assert (Heq : chunk_hash r = h) by congruence.
      unfold same_doc_hash in Hs. cbn [chunk_doc_id chunk_hash] in Hs.
      rewrite Hrd, Heq, !text_eqb_refl in Hs. discriminate Hs.
Qed.

Lemma persist_chunk_keeps_unique_index_witness :
  unique_doc_hash (chunks (working legacy_conn))
  /\ chunks (working legacy_conn) !! legacy_chunk_id = Some first_chunk_row
  /\ exists (ch : str) (c' : Conn),
       persist_chunk source_versions sample_doc_id (lit "first") (Some 1)
                     (Some 1) None legacy_conn
       = (Ok (first_chunk_id, ch), c')
       /\ unique_doc_hash (chunks (working c'))
       /\ (exists row : ChunkRow,
              chunks (working c') !! first_chunk_id = Some row
              /\ chunk_doc_id row = sample_doc_id
              /\ sha256_text (lit "first") = Some (chunk_hash row)
              /\ chunk_text row = lit "first")
       /\ (forall (k : str) (r : ChunkRow),
             chunks (working c') !! k = Some r ->
             chunk_doc_id r = sample_doc_id ->
             sha256_text (lit "first") = Some (chunk_hash r) ->
             k = first_chunk_id)
       /\ chunks (working c') !! legacy_chunk_id = None
       /\ is_Some (chunks (working c') !! other_chunk_id).
Proof.
  assert (Hu : unique_doc_hash (chunks (working legacy_conn))).
  { intros k1 k2 r1 r2 H1 H2 Hs. cbn [legacy_conn working chunks] in H1, H2.
    apply lookup_insert_Some in H1 as [[<- <-]|[Hn1 H1]];
      apply lookup_insert_Some in H2 as [[<- <-]|[Hn2 H2]].
    - reflexivity.
    - apply lookup_singleton_Some in H2 as [<- <-].
      vm_compute in Hs. discriminate Hs.
    - apply lookup_singleton_Some in H1 as [<- <-].
      vm_compute in Hs. discriminate Hs.
    - apply lookup_singleton_Some in H1 as [<- _].
      now apply lookup_singleton_Some in H2 as [<- _]. }
  assert (Hl : chunks (working legacy_conn) !! legacy_chunk_id
               = Some first_chunk_row).
  { cbn [legacy_conn working chunks].
    rewrite lookup_insert_ne by (intros Hc; discriminate Hc).
    apply lookup_singleton_eq. }
  split; [exact Hu|]. split; [exact Hl|].
  pose proof (persist_chunk_run source_versions legacy_conn sample_doc_id
                (lit "first") (Some 1) (Some 1) None (lit "first")
                eq_refl eq_refl I eq_refl eq_refl eq_refl _
                (versioned_text_encode source_versions (lit "first")
                   (lit "first") eq_refl)) as Hrun.
  fold first_chunk_id in Hrun.
  destruct (persist_chunk_keeps_unique_index source_versions sample_doc_id
              (lit "first") (Some 1) (Some 1) None legacy_conn)
    as [Hkeep Hrow].
  specialize (Hkeep Hu). rewrite Hrun in Hkeep. cbn [snd] in Hkeep.
  destruct (Hrow _ _ _ Hrun) as [Hin Honly].
  do 2 eexists. split; [exact Hrun|].
  split; [exact Hkeep|]. split; [exact Hin|]. split; [exact Honly|].
  split; [vm_compute; reflexivity|].
  vm_compute. eauto.
Defined.

(** X5.  Persisting a chunk a second time changes nothing: on a store that does
    not fail, the second call returns what the first returned and leaves
    the connection as the first left it. *)
Theorem persist_chunk_twice :
  forall (v : versions) (c : Conn) (doc_id text : str) (bs : list Z)
         (ps pe : option Z) (sec : option str),
    utf8_encode text = Some bs ->
    encodable doc_id = true ->
    bindable_text sec ->
    reliable c ->
    bindable ps -> bindable pe ->
    exists (r : str * str) (c1 : Conn),
      persist_chunk v doc_id text ps pe sec c = (Ok r, c1)
      /\ persist_chunk v doc_id text ps pe sec c1 = (Ok r, c1)
      /\ is_Some (chunks (working c1) !! fst r).
Proof.
  intros v c doc_id text bs ps pe sec Hbs Hd Hsec Hr Hps Hpe.
  pose proof (versioned_text_encode v text bs Hbs) as Hv.
  pose proof (persist_chunk_run v c doc_id text ps pe sec bs Hbs Hd Hsec Hr
                Hps Hpe _ Hv) as Hrun.
  set (id := chunk_id_of doc_id (sha256_bytes bs)) in *.
  set (row := {| chunk_doc_id := doc_id; page_start := ps; page_end := pe;
                 section := sec; chunk_hash := sha256_bytes bs;
                 content_hash := _; chunk_text := text |}) in *.
  do 2 eexists. split; [exact Hrun|]. split.
  - rewrite (persist_chunk_run v (with_chunk c id row) doc_id text ps pe sec bs
               Hbs Hd Hsec eq_refl Hps Hpe _ Hv).
    f_equal. fold id row. unfold with_chunk. simpl.
    fold (replaced id row (chunks (working c))).
    fold (replaced id row (replaced id row (chunks (working c)))).
    now rewrite replaced_twice.
  - simpl. rewrite lookup_insert_eq. eauto.
Qed.

Lemma persist_chunk_twice_witness :
  utf8_encode (lit "first") = Some (lit "first")
  /\ encodable sample_doc_id = true
  /\ bindable_text None
  /\ reliable fresh_conn
  /\ bindable (Some 1)
  /\ exists (r : str * str) (c1 : Conn),
       persist_chunk source_versions sample_doc_id (lit "first") (Some 1)
                     (Some 1) None fresh_conn = (Ok r, c1)
       /\ persist_chunk source_versions sample_doc_id (lit "first") (Some 1)
                        (Some 1) None c1 = (Ok r, c1).
Proof.
  assert (He : utf8_encode (lit "first") = Some (lit "first")) by reflexivity.
  assert (Hd : encodable sample_doc_id = true) by reflexivity.
  assert (Hn : bindable_text None) by exact I.
  assert (Hr : reliable fresh_conn) by reflexivity.
  assert (H1 : bindable (Some 1)) by reflexivity.
  repeat (split; [assumption|]).
  destruct (persist_chunk_twice source_versions fresh_conn sample_doc_id
              (lit "first") (lit "first") (Some 1) (Some 1) None
              He Hd Hn Hr H1 H1) as (r & c1 & Hrun1 & Hrun2 & _).
  exists r, c1. split; assumption.
Defined.

Lemma sha256_text_length (t h : str) :
  sha256_text t = Some h -> length h = 64%nat.
Proof.
  unfold sha256_text. destruct (utf8_encode t) as [bs|]; [|discriminate].
  intros [= <-]. apply sha256_bytes_length.
Qed.

(** X6.  A [chunk_id] names one document and one digest prefix: two calls of
    [persist_chunk] that return the same [chunk_id] were made for the same
    [doc_id], a colon inside a [doc_id] notwithstanding, and for texts whose
    digests share their first twelve digits. *)
Theorem chunk_id_names_one_document :
  forall (v1 v2 : versions) (d1 d2 t1 t2 : str) (ps1 pe1 ps2 pe2 : option Z)
         (sec1 sec2 : option str) (c1 c2 c1' c2' : Conn) (id ch1 ch2 : str),
    persist_chunk v1 d1 t1 ps1 pe1 sec1 c1 = (Ok (id, ch1), c1') ->
    persist_chunk v2 d2 t2 ps2 pe2 sec2 c2 = (Ok (id, ch2), c2') ->
    d1 = d2
    /\ exists h1 h2 : str,
         sha256_text t1 = Some h1 /\ sha256_text t2 = Some h2
         /\ firstn 12 h1 = firstn 12 h2.
Proof.
  intros v1 v2 d1 d2 t1 t2 ps1 pe1 ps2 pe2 sec1 sec2 c1 c2 c1' c2' id ch1 ch2
         H1 H2.
  apply persist_chunk_ok in H1 as (r1 & _ & Hh1 & Hid1 & _).
  apply persist_chunk_ok in H2 as (r2 & _ & Hh2 & Hid2 & _).
  pose proof (sha256_text_length _ _ Hh1) as Hl1.
  pose proof (sha256_text_length _ _ Hh2) as Hl2.
  rewrite Hid1 in Hid2. unfold chunk_id_of in Hid2.
  rewrite !(app_assoc _ (lit ":")) in Hid2.
  apply app_inj_2 in Hid2 as [Hd Hp];
    [|rewrite !length_firstn; lia].
  apply app_inv_tail in Hd. split; [exact Hd|]. eauto.
Qed.

Lemma chunk_id_names_one_document_witness :
  exists (id ch ch' : str) (c' c'' : Conn),
    persist_chunk source_versions sample_doc_id (lit "first") (Some 1) (Some 1)
                  None fresh_conn = (Ok (id, ch), c')
    /\ persist_chunk {| TOK_VER := 2; SEG_VER := 1 |} sample_doc_id
                     (lit "first") None None None failing_conn
       = (Ok (id, ch'), c'')
    /\ sample_doc_id = sample_doc_id
    /\ exists h1 h2 : str,
         sha256_text (lit "first") = Some h1
         /\ sha256_text (lit "first") = Some h2
         /\ firstn 12 h1 = firstn 12 h2.
Proof.
  assert (H1 : fst (persist_chunk source_versions sample_doc_id (lit "first")
                      (Some 1) (Some 1) None fresh_conn)
               = Ok (chunk_id_of sample_doc_id (sha256_bytes (lit "first")),
                     sha256_bytes (lit "first|tok=1|seg=1")))
    by (vm_compute; reflexivity).
  assert (H2 : fst (persist_chunk {| TOK_VER := 2; SEG_VER := 1 |}
                      sample_doc_id (lit "first") None None None failing_conn)
               = Ok (chunk_id_of sample_doc_id (sha256_bytes (lit "first")),
                     sha256_bytes (lit "first|tok=2|seg=1")))
    by (vm_compute; reflexivity).
  apply pair_of_fst in H1. apply pair_of_fst in H2.
  do 5 eexists. split; [exact H1|]. split; [exact H2|].
  exact (chunk_id_names_one_document _ _ _ _ _ _ _ _ _ _ _ _ _ _ _ _ _ _ _
           H1 H2).
Defined.

(** ** Store: what a call leaves alone *)

(** X7.  [upsert_document] never touches [chunks] nor the row of another
    document, and [persist_chunk] never touches [documents] nor a chunk
    row that is under another key and does not share [(doc_id, chunk_hash)]
    with the new row, whatever the outcome of the call. *)
Theorem store_calls_leave_the_rest :
  forall (v : versions) (doc_id source_path text : str) (mtime : Q)
         (ps pe : option Z) (sec : option str) (c : Conn),
    (let c' := snd (upsert_document doc_id source_path text mtime c) in
     chunks (working c') = chunks (working c)
     /\ forall d : str, d <> doc_id ->
          documents (working c') !! d = documents (working c) !! d)
    /\ (let c' := snd (persist_chunk v doc_id text ps pe sec c) in
        documents (working c') = documents (working c)
        /\ forall (k : str) (r : ChunkRow) (h : str),
             chunks (working c) !! k = Some r ->
             sha256_text text = Some h ->
             k <> doc_id ++ lit ":" ++ firstn 12 h ->
             chunk_doc_id r <> doc_id \/ chunk_hash r <> h ->
             chunks (working c') !! k = Some r).
Proof.
  intros v doc_id source_path text mtime ps pe sec c. split.
  - destruct c as [d w f]. db_cases; (split; [reflexivity|]); intros d' Hd';
      try reflexivity; now rewrite lookup_insert_ne by congruence.
  - cbv zeta.
    destruct (persist_chunk_tables v doc_id text ps pe sec c)
      as [Hsame|(id & row & Hdoc & Hh & Hid & Hw)].
    + rewrite Hsame. auto.
    + rewrite Hw. simpl. split; [reflexivity|].
      intros k r h Hk Hh' Hne Hdiff.
      assert (h = chunk_hash row) by congruence. subst h.
      apply replaced_lookup. right. rewrite Hid.
      split; [exact Hne|]. split; [exact Hk|].
      unfold same_doc_hash. rewrite Hdoc.
      destruct Hdiff as [Hd|Hc].
      * apply text_eqb_neq in Hd. now rewrite Hd.
      * apply text_eqb_neq in Hc. rewrite Hc. apply andb_false_r.
Qed.

Lemma store_calls_leave_the_rest_witness :
  chunks (working one_chunk_conn) !! first_chunk_id = Some first_chunk_row
  /\ sha256_text (lit "second") = Some (sha256_bytes (lit "second"))
  /\ chunks
       (working (snd (persist_chunk source_versions (lit "other")
                        (lit "second") None None None one_chunk_conn)))
       !! first_chunk_id
     = Some first_chunk_row.
Proof.
  assert (Hk : chunks (working one_chunk_conn) !! first_chunk_id
               = Some first_chunk_row) by (vm_compute; reflexivity).
  assert (Hh : sha256_text (lit "second") = Some (sha256_bytes (lit "second")))
    by reflexivity.
  split; [exact Hk|]. split; [exact Hh|].
  apply (proj2 (proj2 (store_calls_leave_the_rest source_versions (lit "other")
                         sample_path (lit "second") 0 None None None
                         one_chunk_conn))
               first_chunk_id first_chunk_row _ Hk Hh).
  - intros Heq. vm_compute in Heq. discriminate Heq.
  - left. discriminate.
Defined.

(** ** Store: a text that cannot be encoded *)

Lemma utf8_encode_surrogate (t : str) (x : Z) :
  In x t -> lone_surrogate x -> utf8_encode t = None.
Proof.
  unfold lone_surrogate. intros Hin Hx.
  induction t as [|c t IH]; [contradiction|].
  simpl. destruct Hin as [->|Hin].
  - unfold utf8_char.
    destruct (Z.ltb_spec x 0); [reflexivity|].
    destruct (Z.ltb_spec x 128); [lia|].
    destruct (Z.ltb_spec x 2048); [lia|].
    destruct (Z.ltb_spec x 65536); [|lia].
    destruct (Z.leb_spec 55296 x), (Z.leb_spec x 57343); simpl;
      try lia; reflexivity.
  - rewrite (IH Hin). now destruct (utf8_char c).
Qed.

(** X8.  A text holding a lone surrogate makes [sha256_text] raise, and with it
    [upsert_document] and [persist_chunk]: UnicodeEncodeError, before any
    call into sqlite3, the connection left exactly as it was. *)
Theorem unencodable_text_raises_before_storage :
  forall (v : versions) (doc_id source_path text : str) (mtime : Q)
         (ps pe : option Z) (sec : option str) (c : Conn) (x : Z),
    In x text -> lone_surrogate x ->
    sha256_text text = None
    /\ upsert_document doc_id source_path text mtime c
       = (Raise UnicodeEncodeError, c)
    /\ persist_chunk v doc_id text ps pe sec c
       = (Raise UnicodeEncodeError, c).
Proof.
  intros v doc_id source_path text mtime ps pe sec c x Hin Hx.
  assert (Hnone : sha256_text text = None)
    by (unfold sha256_text; now rewrite (utf8_encode_surrogate text x Hin Hx)).
  split; [exact Hnone|].
  unfold upsert_document, persist_chunk, sha256_text_m, bind, raise.
  now rewrite Hnone.
Qed.

Lemma unencodable_text_raises_before_storage_witness :
  In 0xD83D [104; 0xD83D] /\ lone_surrogate 0xD83D
  /\ upsert_document sample_doc_id sample_path [104; 0xD83D] 1700000000
                     failing_conn
     = (Raise UnicodeEncodeError, failing_conn).
Proof.
  assert (Hin : In 0xD83D [104; 0xD83D]) by (right; left; reflexivity).
  assert (Hx : lone_surrogate 0xD83D) by (unfold lone_surrogate; lia).
  split; [exact Hin|]. split; [exact Hx|].
  exact (proj1 (proj2 (unencodable_text_raises_before_storage source_versions
                         sample_doc_id sample_path [104; 0xD83D] 1700000000
                         None None None failing_conn 0xD83D Hin Hx))).
Defined.

(** ** Routes: accepted file names *)

Lemma after_last_dot_None (s : str) :
  after_last_dot s = None <-> ~ In DOT s.
Proof.
  unfold DOT. induction s as [|c t IH]; simpl; [tauto|].
  destruct (after_last_dot t) as [r|].
  - split; [discriminate|]. intros Hn. exfalso.
    assert (Ht : ~ In 46 t) by tauto.
    apply IH in Ht. discriminate Ht.
  - destruct (Z.eqb_spec c 46) as [->|Hc].
    + split; [discriminate|]. tauto.
    + split; [|reflexivity]. intros _ [Heq|Hin]; [congruence|].
      now apply (proj1 IH).
Qed.

Lemma after_last_dot_app (stem ext : str) :
  ~ In DOT ext -> after_last_dot (stem ++ [DOT] ++ ext) = Some ext.
Proof.
  intros Hn. induction stem as [|c stem IH]; simpl.
  - apply after_last_dot_None in Hn. now rewrite Hn.
  - simpl in IH. now rewrite IH.
Qed.

Lemma after_last_dot_split (s ext : str) :
  after_last_dot s = Some ext ->
  exists stem : str, s = stem ++ [DOT] ++ ext /\ ~ In DOT ext.
Proof.
  revert ext. induction s as [|c t IH]; intros ext; simpl; [discriminate|].
  destruct (after_last_dot t) as [r|] eqn:Et.
  - intros [= <-]. destruct (IH r eq_refl) as (stem & -> & Hn).
    exists (c :: stem). auto.
  - destruct (Z.eqb_spec c 46) as [->|Hc]; [|discriminate].
    intros [= <-]. exists []. split; [reflexivity|].
    now apply after_last_dot_None.
Qed.

(** X9.  [allowed_file] accepts a name exactly when it has a full stop and the
    part after the last one lowers to pdf, doc or docx; a name with no full
    stop is refused. *)
Theorem allowed_file_by_last_extension :
  forall (ul : Z -> list Z) (name : str),
    (allowed_file ul name = true <->
     exists stem ext : str,
       name = stem ++ [DOT] ++ ext /\ ~ In DOT ext
       /\ (lower ul ext = lit "pdf" \/ lower ul ext = lit "doc"
           \/ lower ul ext = lit "docx"))
    /\ (~ In DOT name -> allowed_file ul name = false).
Proof.
  intros ul name. unfold allowed_file. split; [split|].
  - destruct (after_last_dot name) as [ext|] eqn:E; [|discriminate].
    apply after_last_dot_split in E as (stem & -> & Hn).
    intros H. exists stem, ext. split; [reflexivity|]. split; [exact Hn|].
    unfold ALLOWED_EXTENSIONS in H. cbn [existsb] in H.
    rewrite orb_false_r in H.
    apply orb_true_iff in H as [H|H]; [left; now apply text_eqb_eq|].
    apply orb_true_iff in H as [H|H]; right;
      [left|right]; now apply text_eqb_eq.
  - intros (stem & ext & -> & Hn & Hext).
    rewrite (after_last_dot_app stem ext Hn).
    unfold ALLOWED_EXTENSIONS. cbn [existsb].
    destruct Hext as [-> | [-> | ->]]; rewrite text_eqb_refl;
      rewrite ?orb_true_r; reflexivity.
  - intros Hn. apply after_last_dot_None in Hn. now rewrite Hn.
Qed.

Lemma allowed_file_by_last_extension_witness :
  ~ In DOT (lit "report")
  /\ allowed_file ascii_lower (lit "report") = false
  /\ allowed_file ascii_lower (lit "archive.tar.PDF") = true.
Proof.
  assert (Hn : ~ In DOT (lit "report"))
    by (unfold DOT; simpl; intuition discriminate).
  split; [exact Hn|].
  destruct (allowed_file_by_last_extension ascii_lower (lit "report"))
    as [_ Hno].
  split; [exact (Hno Hn)|].
  apply (proj1 (allowed_file_by_last_extension ascii_lower
                  (lit "archive.tar.PDF"))).
  exists (lit "archive.tar"), (lit "PDF").
  split; [reflexivity|]. split; [unfold DOT; simpl; intuition discriminate|].
  left. reflexivity.
Defined.

(** ** Routes: what an upload does to the store *)

Lemma upsert_document_ok_hash doc_id source_path norm_text mtime c b :
  fst (upsert_document doc_id source_path norm_text mtime c) = Ok b ->
  stored_hash (snd (upsert_document doc_id source_path norm_text mtime c)) doc_id
  = sha256_text norm_text.
Proof.
  unfold stored_hash. destruct c as [dt w f]. db_cases; try discriminate;
    intros _.
  all: try (rewrite lookup_insert_eq; reflexivity).
  all: match goal with
       | H : text_eqb _ _ = true |- _ => apply text_eqb_eq in H; subst
       end; assumption.
Qed.

(** X10.  [add_doc] answers 400, 500 or 201.  Short of 201 the connection is as
    it was; when an exception escapes, the committed store is as it was. *)
Theorem add_doc_commits_only_on_success :
  forall (ul : Z -> list Z) (ua : Z -> bool) (w : World)
         (file : option Upload) (db : Conn),
    let out := add_doc ul ua w file db in
    match fst (fst out) with
    | Ok resp =>
      (status resp = 400 \/ status resp = 500 \/ status resp = 201)
      /\ (status resp <> 201 -> snd (fst out) = db)
    | Raise _ => durable (snd (fst out)) = durable db
    end.
Proof.
  intros ul ua w file db. cbv zeta. unfold add_doc.
  destruct file as [file|]; [|cbn; auto].
  destruct (filename file) as [[|ch name]|]; try (cbn; auto).
  destruct (negb (allowed_file ul (ch :: name))); [cbn; auto|].
  destruct (makedirs w); [|reflexivity].
  fold (upload_folder_of w).
  destruct (save file (path_join (upload_folder_of w) (uuid4 w)));
    [|cbn; auto].
  destruct (_get_text ua w (path_join (upload_folder_of w) (uuid4 w)))
    as [[text|e] entered]; [|reflexivity].
  pose proof (upsert_document_durable (uuid4 w)
                (path_join (upload_folder_of w) (uuid4 w)) text
                (inject_Z (now_timestamp w)) db) as Hd.
  cbv zeta in Hd.
  destruct (upsert_document (uuid4 w) (path_join (upload_folder_of w) (uuid4 w))
              text (inject_Z (now_timestamp w)) db) as [[b|e] db'];
    cbn [fst snd] in *.
  - split; [auto|]. cbn. congruence.
  - exact Hd.
Qed.

Lemma path_join_suffix (a b : str) : exists pre : str, path_join a b = pre ++ b.
Proof.
  unfold path_join.
  repeat (match goal with
          | |- context [match ?x with _ => _ end] => destruct x
          end);
    first [exists []; reflexivity
          |eexists; reflexivity
          |eexists; rewrite app_assoc; reflexivity].
Qed.

Lemma endswith_dot_suffix (pre u rest : str) :
  Forall (fun c => c <> DOT) u ->
  (length (DOT :: rest) <= length u)%nat ->
  endswith (pre ++ u) (DOT :: rest) = false.
Proof.
  intros Hu Hlen. unfold endswith.
  rewrite drop_app_ge by (rewrite length_app; lia).
  set (x := drop _ u).
  assert (Hx : Forall (fun c => c <> DOT) x) by now apply Forall_drop.
  destruct x as [|c x']; [reflexivity|].
  inversion Hx as [|? ? Hc _]; subst. cbn [text_eqb].
  destruct (Z.eqb_spec c DOT); [contradiction|reflexivity].
Qed.

Lemma _get_text_of_uuid ua (w : World) (folder u : str) :
  uuid_like u ->
  _get_text ua w (path_join folder u) = (Ok Untitled, [F_get_text]).
Proof.
  intros [Hlen Hchars].
  assert (Hnodot : Forall (fun c => c <> DOT) u).
  { eapply List.Forall_impl; [|exact Hchars].
    unfold is_hex, HYPHEN, DOT. intros c Hc. lia. }
  destruct (path_join_suffix folder u) as [pre ->].
  unfold _get_text.
  change (lit ".pdf") with (DOT :: lit "pdf").
  change (lit ".doc") with (DOT :: lit "doc").
  change (lit ".docx") with (DOT :: lit "docx").
  rewrite !endswith_dot_suffix; try assumption; try (rewrite Hlen; simpl; lia).
  reflexivity.
Qed.

(** X11.  [add_doc] stores the upload under the bare [doc_id], a name with no
    extension, so [_get_text] takes neither extraction branch: with a
    [doc_id] shaped as a UUID, an upload answered 201 has entered no
    extractor, and the stored [file_hash] is the digest of the word
    Untitled, whatever the file holds. *)
Theorem add_doc_hashes_untitled :
  forall (ul : Z -> list Z) (ua : Z -> bool) (w : World)
         (file : option Upload) (db db' : Conn) (resp : Response)
         (log : list fn),
    uuid_like (uuid4 w) ->
    add_doc ul ua w file db = (Ok resp, db', log) ->
    status resp = 201 ->
    log = [F_allowed_file; F_get_text; F_upsert_document]
    /\ stored_hash db' (uuid4 w) = sha256_text Untitled.
Proof.
  intros ul ua w file db db' resp log Hu. unfold add_doc.
  destruct file as [file|]; [|intros [= <- _ _]; discriminate].
  destruct (filename file) as [[|ch name]|];
    try (intros [= <- _ _]; discriminate).
  destruct (negb (allowed_file ul (ch :: name)));
    [intros [= <- _ _]; discriminate|].
  destruct (makedirs w); [|discriminate].
  fold (upload_folder_of w).
  destruct (save file (path_join (upload_folder_of w) (uuid4 w)));
    [|intros [= <- _ _]; discriminate].
  rewrite (_get_text_of_uuid ua w (upload_folder_of w) (uuid4 w) Hu).
  pose proof (upsert_document_ok_hash (uuid4 w)
                (path_join (upload_folder_of w) (uuid4 w)) Untitled
                (inject_Z (now_timestamp w)) db) as Hh.
  destruct (upsert_document (uuid4 w) (path_join (upload_folder_of w) (uuid4 w))
              Untitled (inject_Z (now_timestamp w)) db) as [[b|e] db1];
    [|discriminate].
  intros [= <- <- <-] _. split; [reflexivity|]. exact (Hh b eq_refl).
Qed.

Lemma triple_eta {A B C} (p : A * B * C) :
  p = (fst (fst p), snd (fst p), snd p).
Proof. now destruct p as [[a b] c]. Qed.

Lemma add_doc_hashes_untitled_witness :
  uuid_like (uuid4 uuid_world)
  /\ status <$> (match fst (fst (add_doc ascii_lower ascii_alnum uuid_world
                                   (Some sample_upload) fresh_conn)) with
                 | Ok resp => Some resp
                 | Raise _ => None
                 end) = Some 201
  /\ stored_hash (snd (fst (add_doc ascii_lower ascii_alnum uuid_world
                              (Some sample_upload) fresh_conn)))
                 (uuid4 uuid_world)
     = sha256_text (lit "Untitled").
Proof.
  assert (Hu : uuid_like (uuid4 uuid_world)).
  { split; [reflexivity|]. apply List.Forall_forall. intros c Hc.
    simpl in Hc. unfold is_hex, HYPHEN.
    repeat (destruct Hc as [<-|Hc]; [lia|]). contradiction. }
  assert (Hresp : fst (fst (add_doc ascii_lower ascii_alnum uuid_world
                              (Some sample_upload) fresh_conn))
                  = Ok {| status := 201;
                          message := lit "Document uploaded successfully." |})
    by (vm_compute; reflexivity).
  split; [exact Hu|]. split; [rewrite Hresp; reflexivity|].
  pose proof (triple_eta (add_doc ascii_lower ascii_alnum uuid_world
                            (Some sample_upload) fresh_conn)) as Hrun.
  rewrite Hresp in Hrun.
  exact (proj2 (add_doc_hashes_untitled ascii_lower ascii_alnum uuid_world
                  (Some sample_upload) fresh_conn _ _ _ Hu Hrun eq_refl)).
Defined.

(** ** Routes: failures of the PDF title resolver *)

(** X12.  [_extract_pdf_title] raises exactly the failure of reading the upload,
    of parsing it, or of building the client; a failure of the completion
    call never escapes it. *)
Theorem pdf_title_raises_iff :
  forall (ul : Z -> list Z) (env : TitleEnv) (file : PdfFile) (e : exn),
    _extract_pdf_title ul env file = Raise e <-> pdf_title_failure env file e.
Proof.
  intros ul env file e. unfold pdf_title_failure, _extract_pdf_title, rbind,
    try_except.
  destruct (stream_tell file) as [pos|e0].
  2: { split; [intros [= ->]; now left|].
       intros [H|[(? & H & _)|[(? & ? & ? & H & _)|(? & ? & ? & ? & ? & H & _)]]];
         congruence. }
  destruct (file_read file) as [data|e0].
  2: { split; [intros [= ->]; right; left; eauto|].
       intros [H|[(? & _ & H)|[(? & ? & ? & _ & H & _)
                              |(? & ? & ? & ? & ? & _ & H & _)]]];
         congruence. }
  destruct data as [|d data].
  { split; [discriminate|].
    intros [H|[(? & _ & H)|[(? & ? & ? & _ & H & _)
                           |(? & ? & ? & ? & ? & _ & H & _)]]];
      congruence. }
  destruct (fitz_open_stream file) as [pdf|e0].
  2: { split; [intros [= ->]; right; right; left; eauto 10|].
       intros [H|[(? & _ & H)|[(? & ? & ? & _ & _ & H)
                              |(? & ? & ? & ? & ? & _ & _ & H & _)]]];
         congruence. }
  destruct pdf as [|page pages].
  { split; [discriminate|].
    intros [H|[(? & _ & H)|[(? & ? & ? & _ & _ & H)
                           |(? & ? & ? & ? & ? & _ & _ & H & _)]]];
      congruence. }
  destruct (nonempty (strip (or_empty page))) eqn:Hne; cbn [negb].
  2: { split; [discriminate|].
       intros [H|[(? & _ & H)|[(? & ? & ? & _ & _ & H)
                              |(? & ? & ? & ? & ? & _ & _ & H & Hn & _)]]];
         congruence. }
  destruct (has_key env) eqn:Hk; cbn [negb].
  2: { split; [discriminate|].
       intros [H|[(? & _ & H)|[(? & ? & ? & _ & _ & H)
                              |(? & ? & ? & ? & ? & _ & _ & _ & _ & H & _)]]];
         congruence. }
  destruct (OpenAI env) as [u|e0].
  - split.
    + destruct (chat_create env _); discriminate.
    + intros [H|[(? & _ & H)|[(? & ? & ? & _ & _ & H)
                             |(? & ? & ? & ? & ? & _ & _ & _ & _ & _ & H)]]];
        congruence.
  - split.
    + intros [= ->]. right; right; right. eauto 12.
    + intros [H|[(? & _ & H)|[(? & ? & ? & _ & _ & H)
                             |(? & ? & ? & ? & ? & _ & _ & _ & _ & _ & H)]]];
        congruence.
Qed.

Example corrupt_pdf_raises :
  _extract_pdf_title ascii_lower chatty_env corrupt_pdf = Raise ExternalError
  /\ _extract_docx_title ascii_lower chatty_env (Raise ExternalError)
     = Ok Unknown.
Proof. split; reflexivity. Qed.

(** ** Stripping, and the shape of a title *)

Lemma lstrip_by_In (p : Z -> bool) (s : str) (x : Z) :
  In x (lstrip_by p s) -> In x s.
Proof.
  induction s as [|c t IH]; simpl; [auto|].
  destruct (p c); [right; auto|auto].
Qed.

Lemma strip_by_In (p : Z -> bool) (s : str) (x : Z) :
  In x (strip_by p s) -> In x s.
Proof.
  unfold strip_by, rstrip_by. intros H.
  apply in_rev, lstrip_by_In, in_rev in H. now apply lstrip_by_In in H.
Qed.

Lemma lstrip_by_head (p : Z -> bool) (s : str) :
  lstrip_by p s = [] \/ exists c t, lstrip_by p s = c :: t /\ p c = false.
Proof.
  induction s as [|c t IH]; simpl; [now left|].
  destruct (p c) eqn:E; [exact IH|]. right. eauto.
Qed.

Lemma lstrip_by_twice (p : Z -> bool) (s : str) :
  lstrip_by p (lstrip_by p s) = lstrip_by p s.
Proof.
  destruct (lstrip_by_head p s) as [->|(c & t & -> & Hc)]; [reflexivity|].
  simpl. now rewrite Hc.
Qed.

Lemma lstrip_by_app (p : Z -> bool) (a b : str) :
  lstrip_by p (a ++ b) =
  if forallb p a then lstrip_by p b else lstrip_by p a ++ b.
Proof.
  induction a as [|c a IH]; simpl; [reflexivity|].
  destruct (p c); simpl; [exact IH|reflexivity].
Qed.

Lemma forallb_rev (p : Z -> bool) (s : str) :
  forallb p (rev s) = forallb p s.
Proof.
  induction s as [|c t IH]; simpl; [reflexivity|].
  rewrite forallb_app, IH. simpl. rewrite andb_true_r. apply andb_comm.
Qed.

Lemma rstrip_by_cons (p : Z -> bool) (c : Z) (t : str) :
  rstrip_by p (c :: t) =
  if forallb p t then (if p c then [] else [c]) else c :: rstrip_by p t.
Proof.
  unfold rstrip_by. simpl. rewrite lstrip_by_app, forallb_rev.
  destruct (forallb p t).
  - simpl. now destruct (p c).
  - rewrite rev_app_distr. reflexivity.
Qed.

Lemma strip_by_twice (p : Z -> bool) (s : str) :
  strip_by p (strip_by p s) = strip_by p s.
Proof.
  unfold strip_by.
  assert (Hl : lstrip_by p (rstrip_by p (lstrip_by p s))
               = rstrip_by p (lstrip_by p s)).
  { destruct (lstrip_by_head p s) as [->|(c & t & -> & Hc)]; [reflexivity|].
    rewrite rstrip_by_cons, Hc.
    destruct (forallb p t); simpl; now rewrite Hc. }
  rewrite Hl. unfold rstrip_by. rewrite rev_involutive.
  now rewrite lstrip_by_twice.
Qed.

Lemma splitlines_from_lines (s : str) :
  forall cur : str,
    Forall (fun c => is_linebreak c = false) cur ->
    Forall (Forall (fun c => is_linebreak c = false)) (splitlines_from cur s).
Proof.
  remember (length s) as n eqn:Hn. revert s Hn.
  induction n as [n IH] using lt_wf_ind. intros s Hn cur Hcur. subst n.
  assert (Hrev : Forall (fun c => is_linebreak c = false) (rev cur))
    by now apply Forall_rev.
  destruct s as [|c t]; simpl.
  - destruct cur; repeat constructor. exact Hrev.
  - destruct (is_linebreak c) eqn:Hc.
    + constructor; [exact Hrev|].
      destruct t as [|d t'].
      * simpl. constructor.
      * destruct ((c =? CR) && (d =? LF)).
        -- apply (IH (length t')); [simpl; lia|reflexivity|constructor].
        -- apply (IH (length (d :: t'))); [simpl; lia|reflexivity|constructor].
    + apply (IH (length t)); [simpl; lia|reflexivity|].
      now constructor.
Qed.

Lemma first_nonblank_In (lines : list str) (x : Z) :
  In x (first_nonblank lines) -> exists ln, In ln lines /\ In x ln.
Proof.
  induction lines as [|ln rest IH]; simpl; [contradiction|].
  destruct (nonempty (strip ln)).
  - intros H. exists ln. split; [now left|]. now apply strip_by_In in H.
  - intros H. destruct (IH H) as (l & Hl & Hx). eauto.
Qed.

Lemma response_title_shape ul (resp : completion) :
  Forall (fun c => is_linebreak c = false) (response_title ul resp)
  /\ strip_by quote_or_space (response_title ul resp) = response_title ul resp.
Proof.
  assert (Hunk : Forall (fun c => is_linebreak c = false) Unknown
                 /\ strip_by quote_or_space Unknown = Unknown)
    by (split; [repeat constructor|reflexivity]).
  rewrite response_title_line.
  destruct (negb (nonempty (strip (response_text resp)))); [exact Hunk|].
  destruct (negb (nonempty (title_line resp))
            || text_eqb (lower ul (title_line resp)) (lit "unknown")
            || (200 <? length (title_line resp))%nat); [exact Hunk|].
  unfold title_line. split; [|apply strip_by_twice].
  apply List.Forall_forall. intros x Hx.
  apply strip_by_In, first_nonblank_In in Hx as (ln & Hln & Hx).
  pose proof (splitlines_from_lines (strip (response_text resp)) []
                (List.Forall_nil _)) as Hlines.
  rewrite List.Forall_forall in Hlines. specialize (Hlines ln Hln).
  rewrite List.Forall_forall in Hlines. now apply Hlines.
Qed.

(** X13.  A title either resolver returns is a single line with no quote and no
    space at either end: it holds no line break, and stripping quotes and
    spaces from it changes nothing. *)
Theorem resolved_title_is_one_bare_line :
  forall (ul : Z -> list Z) (env : TitleEnv)
         (doc : result (list Paragraph)) (file : PdfFile) (t : str),
    _extract_docx_title ul env doc = Ok t
    \/ _extract_pdf_title ul env file = Ok t ->
    Forall (fun c => is_linebreak c = false) t
    /\ strip_by quote_or_space t = t.
Proof.
  intros ul env doc file t Ht.
  assert (Hcases : t = Unknown \/ exists resp, t = response_title ul resp).
  { destruct Ht as [Ht|Ht].
    - destruct (docx_title_outcomes ul env doc)
        as [Hd|(? & resp & _ & _ & Hd)]; rewrite Hd in Ht;
        injection Ht as <-; eauto.
    - destruct (pdf_title_outcomes ul env file)
        as [Hp|[(? & resp & _ & _ & Hp)|(e & Hp & _)]]; rewrite Hp in Ht;
        [injection Ht as <-; eauto|injection Ht as <-; eauto|discriminate]. }
  destruct Hcases as [->|[resp ->]].
  - split; [repeat constructor|reflexivity].
  - apply response_title_shape.
Qed.

Lemma resolved_title_is_one_bare_line_witness :
  _extract_docx_title ascii_lower quoting_env (Ok one_paragraph)
  = Ok (lit "Annual Report")
  /\ Forall (fun c => is_linebreak c = false) (lit "Annual Report")
  /\ strip_by quote_or_space (lit "Annual Report") = lit "Annual Report".
Proof.
  assert (H : _extract_docx_title ascii_lower quoting_env (Ok one_paragraph)
              = Ok (lit "Annual Report")) by (vm_compute; reflexivity).
  split; [exact H|].
  exact (resolved_title_is_one_bare_line ascii_lower quoting_env
           (Ok one_paragraph) sample_pdf (lit "Annual Report") (or_introl H)).
Defined.
